(** * LudoLocale backend: string extraction and patching of game containers

    A shallow embedding of [ludolocale_backend.py].  Byte buffers are lists
    of integers in [0, 256), Python strings are lists of Unicode code
    points, exceptions are values of an error type, and the [nonlocal pos]
    cursor of the binary readers is threaded through a small state-and-error
    monad. *)

From Stdlib Require Import Decimal DecimalNat DecimalString String Ascii.
From Stdlib Require Import ZArith List Bool Lia FinFun.
Import ListNotations.
Local Open Scope Z_scope.

(** ** Python values and built-ins used by the backend *)

Module Py.

Definition bytes := list Z.
Definition str := list Z.

(** A literal of the source, as code points. *)
Definition lit (s : string) : str :=
  map (fun a => Z.of_nat (nat_of_ascii a)) (list_ascii_of_string s).

Definition len {A} (l : list A) : Z := Z.of_nat (List.length l).

(** [l[lo:hi]]: indices below zero count from the end, and both ends are
    clipped to the sequence. *)
Definition clip (n i : Z) : Z :=
  if i <? 0 then Z.max 0 (i + n) else Z.min i n.

Definition slice {A} (l : list A) (lo hi : Z) : list A :=
  let a := clip (len l) lo in
  let b := clip (len l) hi in
  firstn (Z.to_nat (b - a)) (skipn (Z.to_nat a) l).

Fixpoint startswith (s p : str) : bool :=
  match p, s with
  | [], _ => true
  | _ :: _, [] => false
  | c :: p', d :: s' => (c =? d) && startswith s' p'
  end.

Definition endswith (s p : str) : bool := startswith (rev s) (rev p).

Definition contains (c : Z) (s : str) : bool := existsb (Z.eqb c) s.

Fixpoint dropwhile (p : Z -> bool) (s : str) : str :=
  match s with
  | [] => []
  | c :: s' => if p c then dropwhile p s' else s
  end.

Definition lstrip_by (p : Z -> bool) (s : str) : str := dropwhile p s.
Definition rstrip_by (p : Z -> bool) (s : str) : str := rev (dropwhile p (rev s)).
Definition strip_by (p : Z -> bool) (s : str) : str := lstrip_by p (rstrip_by p s).

(** The code points for which [str.isspace] holds; [str.strip()] without an
    argument removes exactly these. *)
Definition isspace (c : Z) : bool :=
  ((9 <=? c) && (c <=? 13)) || ((28 <=? c) && (c <=? 32))
  || (c =? 133) || (c =? 160) || (c =? 5760)
  || ((8192 <=? c) && (c <=? 8202))
  || (c =? 8232) || (c =? 8233) || (c =? 8239) || (c =? 8287) || (c =? 12288).

Definition strip (s : str) : str := strip_by isspace s.

(** [s.strip(chars)] and friends: the argument is a set of characters. *)
Definition strip_chars (chars s : str) : str := strip_by (fun c => contains c chars) s.
Definition lstrip_chars (chars s : str) : str := lstrip_by (fun c => contains c chars) s.
Definition rstrip_chars (chars s : str) : str := rstrip_by (fun c => contains c chars) s.

(** [s.split(sep)] for a one-character separator: never empty. *)
Fixpoint split (sep : Z) (s : str) : list str :=
  match s with
  | [] => [[]]
  | c :: s' =>
      if c =? sep then [] :: split sep s'
      else match split sep s' with
           | [] => [[c]]
           | w :: ws => (c :: w) :: ws
           end
  end.

(** [s.split(sep, 1)] when [sep] occurs in [s]: the text before the first
    occurrence and the text after it. *)
Fixpoint split1 (sep : Z) (s : str) : str * str :=
  match s with
  | [] => ([], [])
  | c :: s' =>
      if c =? sep then ([], s')
      else let (a, b) := split1 sep s' in (c :: a, b)
  end.

(** [s.rsplit(sep, 1)] when [sep] occurs in [s]. *)
Definition rsplit1 (sep : Z) (s : str) : str * str :=
  let (b, a) := split1 sep (rev s) in (rev a, rev b).

(** [str(n)] for a counter. *)
Definition str_of_nat (n : nat) : str :=
  lit (NilEmpty.string_of_uint (Nat.to_uint n)).

(** [enumerate]. *)
Fixpoint enumerate_from {A} (i : nat) (l : list A) : list (nat * A) :=
  match l with
  | [] => []
  | x :: l' => (i, x) :: enumerate_from (S i) l'
  end.

Definition enumerate {A} (l : list A) : list (nat * A) := enumerate_from 0 l.

(** Exceptions the backend can meet. *)
Inductive exn :=
  | StructError (offset size : Z)
  | IndexError
  | UnicodeDecodeError
  | UnicodeEncodeError
  | AttributeError
  | HTTPException (status : Z) (detail : http_detail)
with http_detail :=
  | FormatoNonSupportato (filename : str)
  | PatchNonSupportata (engine : str)
  | ErroreParsing (cause : exn)
  | ErroreGenerazionePatch (cause : exn).

Inductive result (A : Type) :=
  | Ok (a : A)
  | Raise (e : exn).
Arguments Ok {A} a.
Arguments Raise {A} e.

(** [b[i]] on a bytes object. *)
Definition getitem (b : bytes) (i : Z) : result Z :=
  let j := if i <? 0 then i + len b else i in
  if (0 <=? j) && (j <? len b) then Ok (nth (Z.to_nat j) b 0) else Raise IndexError.

(** [int.from_bytes(b, 'little')]. *)
Fixpoint from_bytes_little (b : bytes) : Z :=
  match b with
  | [] => 0
  | x :: b' => x + 256 * from_bytes_little b'
  end.

(** [struct.unpack_from(fmt, buffer, offset)[0]] for the unsigned formats
    [<I] (4 bytes) and [<Q] (8 bytes), at an offset that is not negative. *)
Definition unpack_unsigned (size : Z) (buffer : bytes) (offset : Z) : result Z :=
  if offset + size <=? len buffer
  then Ok (from_bytes_little (slice buffer offset (offset + size)))
  else Raise (StructError offset size).

Definition unpack_I := unpack_unsigned 4.
Definition unpack_Q := unpack_unsigned 8.

(** The signed format [<i]: two's complement on 32 bits. *)
Definition unpack_i (buffer : bytes) (offset : Z) : result Z :=
  match unpack_I buffer offset with
  | Ok v => Ok (if v <? 2 ^ 31 then v else v - 2 ^ 32)
  | Raise e => Raise e
  end.

(** *** Codecs

    [utf8_scan] follows CPython's UTF-8 decoder: each item is a decoded code
    point, or [None] for a decoding error, after which the scan resumes where
    the error handler is told the error ends (one byte after an invalid start
    byte, after the bytes that were still valid for an invalid continuation
    byte, at the end of the data for a sequence cut short). *)

Definition REPLACEMENT_CHARACTER : Z := 65533.

Definition is_continuation (b : Z) : bool := (128 <=? b) && (b <? 192).

Definition bad_second3 (b1 b2 : Z) : bool :=
  negb (is_continuation b2) || (if b2 <? 160 then b1 =? 224 else b1 =? 237).

Definition bad_second4 (b1 b2 : Z) : bool :=
  negb (is_continuation b2) || (if b2 <? 144 then b1 =? 240 else b1 =? 244).

Definition low6 (b : Z) : Z := Z.land b 63.

Definition join2 (b1 b2 : Z) : Z :=
  Z.lor (Z.shiftl (Z.land b1 31) 6) (low6 b2).
Definition join3 (b1 b2 b3 : Z) : Z :=
  Z.lor (Z.shiftl (Z.land b1 15) 12) (Z.lor (Z.shiftl (low6 b2) 6) (low6 b3)).
Definition join4 (b1 b2 b3 b4 : Z) : Z :=
  Z.lor (Z.shiftl (Z.land b1 7) 18)
    (Z.lor (Z.shiftl (low6 b2) 12) (Z.lor (Z.shiftl (low6 b3) 6) (low6 b4))).

Fixpoint utf8_scan (s : bytes) : list (option Z) :=
  match s with
  | [] => []
  | b1 :: t1 =>
    if b1 <? 128 then Some b1 :: utf8_scan t1
    else if b1 <? 194 then None :: utf8_scan t1
    else if b1 <? 224 then
      match t1 with
      | [] => [None]
      | b2 :: t2 =>
        if is_continuation b2 then Some (join2 b1 b2) :: utf8_scan t2
        else None :: utf8_scan t1
      end
    else if b1 <? 240 then
      match t1 with
      | [] => [None]
      | b2 :: t2 =>
        if bad_second3 b1 b2 then None :: utf8_scan t1
        else match t2 with
             | [] => [None]
             | b3 :: t3 =>
               if is_continuation b3 then Some (join3 b1 b2 b3) :: utf8_scan t3
               else None :: utf8_scan t2
             end
      end
    else if b1 <? 245 then
      match t1 with
      | [] => [None]
      | b2 :: t2 =>
        if bad_second4 b1 b2 then None :: utf8_scan t1
        else match t2 with
             | [] => [None]
             | b3 :: t3 =>
               if negb (is_continuation b3) then None :: utf8_scan t2
               else match t3 with
                    | [] => [None]
                    | b4 :: t4 =>
                      if is_continuation b4
                      then Some (join4 b1 b2 b3 b4) :: utf8_scan t4
                      else None :: utf8_scan t3
                    end
             end
      end
    else None :: utf8_scan t1
  end.

(** [errors='replace']: every error becomes U+FFFD. *)
Definition replace_errors (items : list (option Z)) : str :=
  map (fun o => match o with Some c => c | None => REPLACEMENT_CHARACTER end) items.

(** [errors='strict']: the first error raises. *)
Fixpoint strict_errors (items : list (option Z)) : result str :=
  match items with
  | [] => Ok []
  | None :: _ => Raise UnicodeDecodeError
  | Some c :: items' =>
      match strict_errors items' with
      | Ok s => Ok (c :: s)
      | Raise e => Raise e
      end
  end.

Definition decode_utf8_replace (b : bytes) : str := replace_errors (utf8_scan b).
Definition decode_utf8_strict (b : bytes) : result str := strict_errors (utf8_scan b).

Definition is_surrogate (c : Z) : bool := (55296 <=? c) && (c <? 57344).
Definition is_high_surrogate (c : Z) : bool := (55296 <=? c) && (c <? 56320).
Definition is_low_surrogate (c : Z) : bool := (56320 <=? c) && (c <? 57344).

Definition join_surrogates (hi lo : Z) : Z :=
  65536 + Z.lor (Z.shiftl (Z.land hi 1023) 10) (Z.land lo 1023).

(** CPython's UTF-16 decoder, little endian, in the same style. *)
Fixpoint utf16le_scan (s : bytes) : list (option Z) :=
  match s with
  | [] => []
  | [_] => [None]
  | b0 :: b1 :: t =>
    let ch := Z.lor (Z.shiftl b1 8) b0 in
    if negb (is_surrogate ch) then Some ch :: utf16le_scan t
    else if negb (is_high_surrogate ch) then None :: utf16le_scan t
    else match t with
         | [] => [None]
         | [_] => [None]
         | c0 :: c1 :: t' =>
           let ch2 := Z.lor (Z.shiftl c1 8) c0 in
           if is_low_surrogate ch2 then Some (join_surrogates ch ch2) :: utf16le_scan t'
           else None :: utf16le_scan t
         end
  end.

Definition decode_utf16le_replace (b : bytes) : str := replace_errors (utf16le_scan b).

(** [s.encode('utf-8')]: a surrogate code point cannot be encoded. *)
Definition encode_utf8_char (c : Z) : bytes :=
  if c <? 128 then [c]
  else if c <? 2048 then [Z.lor 192 (Z.shiftr c 6); Z.lor 128 (low6 c)]
  else if c <? 65536 then
    [Z.lor 224 (Z.shiftr c 12); Z.lor 128 (low6 (Z.shiftr c 6)); Z.lor 128 (low6 c)]
  else
    [Z.lor 240 (Z.shiftr c 18); Z.lor 128 (low6 (Z.shiftr c 12));
     Z.lor 128 (low6 (Z.shiftr c 6)); Z.lor 128 (low6 c)].

Fixpoint encode_utf8 (s : str) : result bytes :=
  match s with
  | [] => Ok []
  | c :: s' =>
      if is_surrogate c then Raise UnicodeEncodeError
      else match encode_utf8 s' with
           | Ok b => Ok (encode_utf8_char c ++ b)
           | Raise e => Raise e
           end
  end.

(** [data.find(sub)]: the least index at which [sub] occurs, or -1. *)
Fixpoint find_from (i : Z) (data sub : bytes) : Z :=
  if startswith data sub then i
  else match data with
       | [] => -1
       | _ :: data' => find_from (i + 1) data' sub
       end.

Definition find (data sub : bytes) : Z := find_from 0 data sub.

End Py.
Import Py.

(** ** The records returned to the caller *)

Record StringRecord := mkStringRecord {
  key : str;
  original : str;
  file : str
}.

(** Keys that are a fixed prefix followed by a counter. *)
Definition counter_keys (prefix : str) (n : nat) : list str :=
  map (fun i => prefix ++ str_of_nat i) (seq 0 n).

(** ** Utility: readable strings of a binary ([extract_strings_from_binary]) *)

Module Scanner.

(** The loop variables [strings], [current] and [idx]. *)
Record state := mkState {
  strings : list StringRecord;
  current : str;
  idx : nat
}.

Definition init : state := mkState [] [] 0.

(** [32 <= b < 127 or b in (9, 10, 13)] *)
Definition is_text_byte (b : Z) : bool :=
  ((32 <=? b) && (b <? 127)) || (b =? 9) || (b =? 10) || (b =? 13).

(** [s and not s.startswith('//') and not s.startswith('#!')] *)
Definition keeps (s : str) : bool :=
  negb (len s =? 0) && negb (startswith s (lit "//")) && negb (startswith s (lit "#!")).

(** One turn of the [while] loop, for the byte [b]. *)
Definition step (filename : str) (st : state) (b : Z) : state :=
  if is_text_byte b then
    mkState (strings st) (current st ++ [b]) (idx st)
  else if 8 <=? len (current st) then
    let s := strip (current st) in
    if keeps s then
      mkState (strings st ++ [mkStringRecord (lit "bin_" ++ str_of_nat (idx st)) s filename])
              [] (S (idx st))
    else mkState (strings st) [] (idx st)
  else mkState (strings st) [] (idx st).

Definition run (filename : str) (content : bytes) : state :=
  fold_left (step filename) content init.

(** Vocabulary for the properties of the loop. *)

Definition text_run (run : bytes) : Prop := Forall (fun b => is_text_byte b = true) run.

(** The buffer is empty or ends with a byte that closes a run. *)
Definition at_boundary (content : bytes) : Prop :=
  content = [] \/ exists p t, content = p ++ [t] /\ is_text_byte t = false.

(** The record of a closed run, when it has one. *)
Definition run_records (filename : str) (n : nat) (run : str) : list StringRecord :=
  if (8 <=? len run) && keeps (strip run)
  then [mkStringRecord (lit "bin_" ++ str_of_nat n) (strip run) filename]
  else [].

(** The loop keeps [idx] equal to the number of records, and the keys are
    the counter values in order. *)
Definition counted (st : state) : Prop :=
  map key (strings st) = counter_keys (lit "bin_") (idx st).

End Scanner.

Definition extract_strings_from_binary (content : bytes) (filename : str)
  : list StringRecord :=
  firstn 500 (Scanner.strings (Scanner.run filename content)).

(** ** Reads at a cursor

    The binary readers advance a cursor [pos] shared by their closures: a
    read returns the value read and the cursor after it, or the exception
    raised. *)

Module Cursor.

Definition reader (A : Type) : Type := Z -> result (A * Z).

Definition ret {A} (a : A) : reader A := fun pos => Ok (a, pos).

Definition bind {A B} (m : reader A) (k : A -> reader B) : reader B :=
  fun pos =>
    match m pos with
    | Ok (a, pos') => k a pos'
    | Raise e => Raise e
    end.

(** [pos += n] *)
Definition advance (n : Z) : reader unit := fun pos => Ok (tt, pos + n).

(** [unpack(content, pos)] followed by [pos += size]. *)
Definition read_with (unpack : Z -> result Z) (size : Z) : reader Z :=
  fun pos =>
    match unpack pos with
    | Ok val => Ok (val, pos + size)
    | Raise e => Raise e
    end.

(** [content[pos:pos + n]] decoded by [decode], without its trailing NUL
    characters, followed by [pos += n]. *)
Definition read_text (content : bytes) (decode : bytes -> str) (n : Z) : reader str :=
  fun pos => Ok (rstrip_chars [0] (decode (slice content pos (pos + n))), pos + n).

End Cursor.

Declare Scope cursor_scope.
Delimit Scope cursor_scope with cursor.
Notation "x <- m ;; k" := (Cursor.bind m (fun x => k))
  (at level 61, m at next level, right associativity) : cursor_scope.

(** ** Unreal [.locres] *)

Module Locres.
Import Cursor.
Local Open Scope cursor_scope.

Section Readers.
Variable content : bytes.

Definition read_uint32 : reader Z := read_with (unpack_I content) 4.

Definition read_int32 : reader Z := read_with (unpack_i content) 4.

Definition read_fstring : reader str :=
  length <- read_int32 ;;
  if length =? 0 then ret []
  else if length <? 0 then read_text content decode_utf16le_replace (- length * 2)
  else read_text content decode_utf8_replace length.

(** [for __ in range(key_count)] *)
Fixpoint read_keys (key_count : nat) (namespace filename : str)
    (strings : list StringRecord) : reader (list StringRecord) :=
  match key_count with
  | O => ret strings
  | S n =>
      key <- read_fstring ;;
      _hash <- read_uint32 ;;
      value <- read_fstring ;;
      read_keys n namespace filename
        (if len value =? 0 then strings
         else strings ++ [mkStringRecord (namespace ++ lit "." ++ key) value filename])
  end.

(** [for _ in range(ns_count)] *)
Fixpoint read_namespaces (ns_count : nat) (filename : str)
    (strings : list StringRecord) : reader (list StringRecord) :=
  match ns_count with
  | O => ret strings
  | S n =>
      namespace <- read_fstring ;;
      key_count <- read_uint32 ;;
      strings' <- read_keys (Z.to_nat key_count) namespace filename strings ;;
      read_namespaces n filename strings'
  end.

(** The body of the [try]: the cursor starts after the 16 bytes of magic. *)
Definition walk (filename : str) : result (list StringRecord) :=
  match (version <- read_uint32 ;;
         ns_count <- read_uint32 ;;
         read_namespaces (Z.to_nat ns_count) filename []) 16 with
  | Ok (strings, _) => Ok strings
  | Raise e => Raise e
  end.

End Readers.

(** The only exception a reader raises is that of an integer of four bytes
    read where fewer than four bytes are left. *)
Definition short_read (content : bytes) (e : exn) : Prop :=
  exists offset, e = StructError offset 4 /\ len content < offset + 4.

Definition fails_short {A} (content : bytes) (m : reader A) : Prop :=
  forall pos e, m pos = Raise e -> short_read content e.

End Locres.

(** The value of four bytes read as a signed 32-bit integer, least
    significant byte first. *)
Definition int32_le (b0 b1 b2 b3 : Z) : Z :=
  let v := b0 + 2 ^ 8 * b1 + 2 ^ 16 * b2 + 2 ^ 24 * b3 in
  if v <? 2 ^ 31 then v else v - 2 ^ 32.

Definition parse_locres (content : bytes) (filename : str) : list StringRecord :=
  match Locres.walk content filename with
  | Ok strings => strings
  | Raise _ => extract_strings_from_binary content filename
  end.

(** A value in the translation map that [json.loads] returns (its keys
    are strings): a string, or a number, a boolean, [null], an array or an
    object, none of which has a method [encode]. *)
Inductive json_value :=
  | JString (s : str)
  | JNotString.

(** A translation map, in the order of its items. *)
Definition dict := list (str * json_value).

(** The [for] loop of [patch_locres] over [translations.items()]: the key
    is searched in [data], and [data] is left as it is either way. *)
Fixpoint patch_locres_items (data : bytes) (translations : dict) : result bytes :=
  match translations with
  | [] => Ok data
  | (key, translation) :: rest =>
      let k := if contains 46 key then snd (rsplit1 46 key) else key in
      match encode_utf8 k with
      | Raise e => Raise e
      | Ok encoded =>
          let search := encoded ++ [0] in
          let idx := find data search in
          if 0 <=? idx then patch_locres_items data rest
          else patch_locres_items data rest
      end
  end.

(** The result is the content written to [out_path]. *)
Definition patch_locres (content : bytes) (translations : dict) (language : str)
  : result bytes :=
  patch_locres_items content translations.

(** ** Godot [.pck] *)

Module Pck.
Import Cursor.
Local Open Scope cursor_scope.

Definition GDPC : bytes := lit "GDPC".

Definition bytes_eqb (a b : bytes) : bool :=
  (len a =? len b) && startswith a b.

(** [path.endswith(('.po', '.csv', '.json', '.tres'))] *)
Definition text_suffixes : list str :=
  [lit ".po"; lit ".csv"; lit ".json"; lit ".tres"].

Definition endswith_any (s : str) (suffixes : list str) : bool :=
  existsb (endswith s) suffixes.

(** The prefix of a catalog line: [msgid], a space and a double quote. *)
Definition msgid_prefix : str := lit "msgid " ++ [34].

(** The records of one line of an inner file. *)
Definition line_records (path : str) (numbered : nat * str) : list StringRecord :=
  let (i, line) := numbered in
  if startswith line msgid_prefix && (9 <? len line) then
    let val := slice line 7 (-1) in
    [mkStringRecord (lit "pck_" ++ path ++ lit "_" ++ str_of_nat i) val path]
  else [].

Definition file_records (path : str) (file_data : bytes) : list StringRecord :=
  let text := decode_utf8_replace file_data in
  flat_map (line_records path) (enumerate (split 10 text)).

Section Directory.
Variable content : bytes.

Definition read_I : reader Z := read_with (unpack_I content) 4.
Definition read_Q : reader Z := read_with (unpack_Q content) 8.

(** [for _ in range(file_count)] *)
Fixpoint read_entries (file_count : nat) (strings : list StringRecord)
    : reader (list StringRecord) :=
  match file_count with
  | O => ret strings
  | S n =>
      path_len <- read_I ;;
      path <- read_text content decode_utf8_replace path_len ;;
      offset <- read_Q ;;
      size <- read_Q ;;
      _md5 <- advance 16 ;;
      read_entries n
        (if endswith_any path text_suffixes
         then strings ++ file_records path (slice content offset (offset + size))
         else strings)
  end.

(** The body of the [try] after the check of the magic. *)
Definition walk : result (list StringRecord) :=
  match (version <- read_I ;;
         major <- read_I ;;
         minor <- read_I ;;
         patch <- read_I ;;
         _reserved <- advance (16 * 4) ;;
         file_count <- read_I ;;
         read_entries (Z.to_nat file_count) []) 4 with
  | Ok (strings, _) => Ok strings
  | Raise e => Raise e
  end.

End Directory.
End Pck.

Definition parse_godot_pck (content : bytes) (filename : str) : list StringRecord :=
  if negb (Pck.bytes_eqb (slice content 0 4) Pck.GDPC) then
    extract_strings_from_binary content filename
  else
    match Pck.walk content with
    | Ok strings => strings
    | Raise _ => extract_strings_from_binary content filename
    end.

(** ** Unity: the textual fallback *)

Definition yaml_line_records (filename : str) (numbered : nat * str)
  : list StringRecord :=
  let (i, line) := numbered in
  if contains 58 line then
    let (before, after) := split1 58 line in
    let key := lstrip_chars (lit "- ") (strip before) in
    let val := strip_chars [34; 39] (strip after) in
    if (3 <? len val) && negb (startswith val (lit "{")) && negb (startswith val (lit "["))
    then [mkStringRecord (if len key =? 0 then lit "line_" ++ str_of_nat i else key)
            val filename]
    else []
  else [].

Definition parse_unity_yaml_fallback (content : bytes) (filename : str)
  : list StringRecord :=
  let text := decode_utf8_replace content in
  flat_map (yaml_line_records filename) (enumerate (split 10 text)).

(** ** RPG Maker [.rvdata2] and the two endpoints

    What the backend takes from outside the file is a variable of this
    section: the Unicode tables behind [str.isprintable] and [str.lower]
    beyond ASCII, the UnityPy package, which may not be installed, and
    the strings that [int] accepts. *)

Section Backend.

(** [chr(c).isprintable()] for [c >= 128]. *)
Variable unicode_printable : Z -> bool.
(** [str.lower]. *)
Variable lower : str -> str.
(** The [try] bodies of [parse_unity] and [patch_unity] when UnityPy can be
    imported; [None] when the import raises [ImportError]. *)
Variable unitypy_parse : option (bytes -> str -> result (list StringRecord)).
Variable unitypy_patch : option (bytes -> dict -> result bytes).
(** Whether [int(s)] returns for a string [s] rather than raising
    [ValueError]: beyond ASCII this follows the Unicode table of decimal
    digits, and the interpreter's limit on the number of digits. *)
Variable int_accepts : str -> bool.

Definition isprintable_char (c : Z) : bool :=
  if c <? 128 then (32 <=? c) && (c <? 127) else unicode_printable c.

Definition isprintable (s : str) : bool := forallb isprintable_char s.

(** The loop variables of [parse_rvdata2]. *)
Record rv_state := mkRv {
  rv_pos : Z;
  rv_i : nat;
  rv_strings : list StringRecord
}.

(** The length header after the tag: the length and the cursor after the
    header, for the length byte [length] read just before [pos]. *)
Definition rv_length (content : bytes) (length pos : Z) : Z * Z :=
  if negb (Z.land length 128 =? 0) then
    let nbytes := Z.land length 127 in
    (from_bytes_little (slice content pos (pos + nbytes)), pos + nbytes)
  else (length, pos).

(** The inner [try]: decode [length] bytes at [pos]. *)
Definition rv_string (content : bytes) (filename : str) (length pos : Z)
    (i : nat) (strings : list StringRecord) : rv_state :=
  match decode_utf8_strict (slice content pos (pos + length)) with
  | Ok s =>
      if (2 <? len s) && isprintable s then
        mkRv (pos + length) (S i)
             (strings ++ [mkStringRecord (lit "str_" ++ str_of_nat i) s filename])
      else mkRv (pos + length) i strings
  | Raise _ => mkRv (pos + 1) i strings
  end.

(** One turn of the [while] loop. *)
Definition rv_turn (content : bytes) (filename : str) (st : rv_state)
    : result rv_state :=
  let pos := rv_pos st in
  match getitem content pos with
  | Raise e => Raise e
  | Ok tag =>
      if tag =? 34 then
        let pos := pos + 1 in
        match getitem content pos with
        | Raise e => Raise e
        | Ok length =>
            let pos := pos + 1 in
            let (length, pos) := rv_length content length pos in
            Ok (rv_string content filename length pos (rv_i st) (rv_strings st))
        end
      else Ok (mkRv (pos + 1) (rv_i st) (rv_strings st))
  end.

(** [while pos < len(content) - 4]; [None] when [fuel] turns were not
    enough to leave the loop. *)
Fixpoint rv_loop (fuel : nat) (content : bytes) (filename : str) (st : rv_state)
    : option (result (list StringRecord)) :=
  if rv_pos st <? len content - 4 then
    match fuel with
    | O => None
    | S fuel' =>
        match rv_turn content filename st with
        | Raise e => Some (Raise e)
        | Ok st' => rv_loop fuel' content filename st'
        end
    end
  else Some (Ok (rv_strings st)).

(** Every turn moves the cursor forward, so one turn per byte is enough
    fuel ([parse_rvdata2_returns]). *)
Definition parse_rvdata2 (content : bytes) (filename : str)
    : option (list StringRecord) :=
  match rv_loop (List.length content) content filename (mkRv 2 0 []) with
  | None => None
  | Some (Ok strings) => Some strings
  | Some (Raise _) => Some (extract_strings_from_binary content filename)
  end.

(** [translation.encode('utf-8')]: a value that is not a string has no
    such method. *)
Definition encode_value (translation : json_value) : result bytes :=
  match translation with
  | JString s => encode_utf8 s
  | JNotString => Raise AttributeError
  end.

(** The [for] loop of [patch_rvdata2]. For a key that starts with [str_]
    the [try] computes [int(key[4:])] and then
    [translation.encode('utf-8')] and uses neither. [except ValueError]
    passes on the failure of [int], after which [encode] is not reached,
    and on [UnicodeEncodeError], which is a [ValueError]; the
    [AttributeError] of a value that is not a string leaves the loop.
    [data] is never written to. *)
Fixpoint patch_rvdata2_items (data : bytes) (translations : dict) : result bytes :=
  match translations with
  | [] => Ok data
  | (key, translation) :: rest =>
      if startswith key (lit "str_") then
        if int_accepts (slice key 4 (len key)) then
          match encode_value translation with
          | Ok enc => patch_rvdata2_items data rest
          | Raise UnicodeEncodeError => patch_rvdata2_items data rest
          | Raise e => Raise e
          end
        else patch_rvdata2_items data rest
      else patch_rvdata2_items data rest
  end.

(** The result is the content written to [out_path]. *)
Definition patch_rvdata2 (content : bytes) (translations : dict) (language : str)
    : result bytes :=
  patch_rvdata2_items content translations.

Definition parse_unity (content : bytes) (filename : str)
    : result (list StringRecord) :=
  match unitypy_parse with
  | Some parse => parse content filename
  | None => Ok (parse_unity_yaml_fallback content filename)
  end.

Definition patch_unity (content : bytes) (translations : dict) (language : str)
    : result bytes :=
  match unitypy_patch with
  | Some patch => patch content translations
  | None => Ok content
  end.

(** *** [POST /parse] *)

Record ParseResponse := mkParseResponse {
  resp_engine : str;
  resp_filename : str;
  resp_total : Z;
  resp_strings : list StringRecord
}.

Definition str_eqb (a b : str) : bool := (len a =? len b) && startswith a b.

(** The [if]/[elif] chain inside the [try] of [parse_file]; [None] only
    when the scan of [parse_rvdata2] ran out of fuel. *)
Definition parse_dispatch (content : bytes) (filename engine : str)
    : option (result (list StringRecord)) :=
  if str_eqb engine (lit "unity")
     || Pck.endswith_any filename [lit ".assets"; lit ".asset"; lit ".bundle"] then
    Some (parse_unity content filename)
  else if str_eqb engine (lit "unreal") || endswith filename (lit ".locres") then
    Some (Ok (parse_locres content filename))
  else if str_eqb engine (lit "rpgmaker_xp") || endswith filename (lit ".rvdata2") then
    option_map Ok (parse_rvdata2 content filename)
  else if str_eqb engine (lit "godot") && endswith filename (lit ".pck") then
    Some (Ok (parse_godot_pck content filename))
  else
    Some (Raise (HTTPException 400 (FormatoNonSupportato filename))).

Definition parse_file (content : bytes) (file_filename engine : str)
    : option (result ParseResponse) :=
  let filename := lower file_filename in
  match parse_dispatch content filename engine with
  | None => None
  | Some (Raise e) => Some (Raise (HTTPException 500 (ErroreParsing e)))
  | Some (Ok strings) =>
      Some (Ok (mkParseResponse engine file_filename (len strings) strings))
  end.

(** *** [POST /patch]: the result is the content of the file sent back. *)

Definition patch_dispatch (content : bytes) (engine language : str)
    (translations : dict) : result bytes :=
  if str_eqb engine (lit "unity") then patch_unity content translations language
  else if str_eqb engine (lit "unreal") then patch_locres content translations language
  else if str_eqb engine (lit "rpgmaker_xp") then patch_rvdata2 content translations language
  else Raise (HTTPException 400 (PatchNonSupportata engine)).

Definition generate_patch (content : bytes) (engine language : str)
    (translations : dict) : result bytes :=
  match patch_dispatch content engine language translations with
  | Ok written => Ok written
  | Raise e => Raise (HTTPException 500 (ErroreGenerazionePatch e))
  end.

End Backend.

(** ** Vocabulary of the statements and sample buffers *)

(** A buffer of bytes: every element is in [0, 256). *)
Definition is_byte (b : Z) : bool := (0 <=? b) && (b <? 256).

Definition well_formed (content : bytes) : Prop := forallb is_byte content = true.

(** [content[i]] for an index inside the buffer. *)
Definition byte_at (content : bytes) (i : Z) : Z := nth (Z.to_nat i) content 0.

(** What the loop of [parse_rvdata2] keeps true: a cursor that is not
    negative, keys that are the counter values in order, and records that
    passed the filter. *)
Definition rv_collected (unicode_printable : Z -> bool) (filename : str)
    (r : StringRecord) : Prop :=
  3 <= len (original r)
  /\ isprintable unicode_printable (original r) = true
  /\ file r = filename.

Definition rv_invariant (unicode_printable : Z -> bool) (filename : str)
    (st : rv_state) : Prop :=
  0 <= rv_pos st
  /\ map key (rv_strings st) = counter_keys (lit "str_") (rv_i st)
  /\ Forall (rv_collected unicode_printable filename) (rv_strings st).

(** The [while] loop of [parse_rvdata2] as a relation between the loop
    variables on entry and the list the loop leaves: the loop is left when
    the cursor has reached [len(content) - 4], and before that one turn is
    taken and the loop goes on from the variables it leaves. *)
Inductive rv_scan (unicode_printable : Z -> bool) (content : bytes) (filename : str)
    : rv_state -> list StringRecord -> Prop :=
  | rv_scan_leave (st : rv_state) :
      len content - 4 <= rv_pos st ->
      rv_scan unicode_printable content filename st (rv_strings st)
  | rv_scan_turn (st st' : rv_state) (strings : list StringRecord) :
      rv_pos st < len content - 4 ->
      rv_turn unicode_printable content filename st = Ok st' ->
      rv_scan unicode_printable content filename st' strings ->
      rv_scan unicode_printable content filename st strings.

(** A character of a line of ASCII text. *)
Definition is_line_char (c : Z) : bool := (0 <=? c) && (c <? 128) && negb (c =? 10).

Definition ascii_lines (lines : list str) : Prop :=
  forallb (forallb is_line_char) lines = true.

(** The engine names and the file extensions that [parse_file] tests. *)
Definition known_engines : list str :=
  [lit "unity"; lit "unreal"; lit "rpgmaker_xp"; lit "godot"].

Definition known_extensions : list str :=
  [lit ".assets"; lit ".asset"; lit ".bundle"; lit ".locres"; lit ".rvdata2"; lit ".pck"].

Module Fixtures.

(** [v] on [n] bytes, least significant byte first. *)
Fixpoint le_bytes (n : nat) (v : Z) : bytes :=
  match n with
  | O => []
  | S n' => v mod 256 :: le_bytes n' (v / 256)
  end.

(** An FString in UTF-8 with its NUL terminator, as the engine writes it. *)
Definition fstring (s : bytes) : bytes := le_bytes 4 (len s + 1) ++ s ++ [0].

(** A table of one namespace [NS] with one key [greeting]; [value] is the
    encoding of its value. *)
Definition locres_table (value : bytes) : bytes :=
  repeat 0 16 ++ le_bytes 4 1 ++ le_bytes 4 1
  ++ fstring (lit "NS") ++ le_bytes 4 1
  ++ fstring (lit "greeting") ++ le_bytes 4 0 ++ value.

Definition locres_hi : bytes := locres_table (fstring (lit "Hi")).

(** The last value announces 13 bytes and the buffer ends after 10. *)
Definition locres_cut : bytes := locres_table (le_bytes 4 13 ++ lit "Hello, wor").

(** The table cut in the middle of its key. *)
Definition locres_short : bytes := firstn 40 locres_hi.

(** A table that holds the key [greeting] twice. *)
Definition locres_twice : bytes :=
  repeat 0 16 ++ le_bytes 4 1 ++ le_bytes 4 1
  ++ fstring (lit "NS") ++ le_bytes 4 2
  ++ fstring (lit "greeting") ++ le_bytes 4 0 ++ fstring (lit "Hi")
  ++ fstring (lit "greeting") ++ le_bytes 4 0 ++ fstring (lit "Ho").

(** A string object that announces 100 bytes when 10 are left. *)
Definition rvdata2_overlong : bytes := [4; 8; 34; 100] ++ lit "HelloWorld".

(** Two string objects, the second with a length on two bytes. *)
Definition rvdata2_two : bytes :=
  [4; 8; 34; 5] ++ lit "HelloWorld" ++ [34; 130; 3; 0] ++ lit "abc" ++ [0; 0; 0; 0; 0].

(** An archive with one inner file [path] of content [text]: magic, format
    version, engine version, 16 reserved words, one directory entry, and the
    file right after the directory. *)
Definition pck_header : bytes :=
  lit "GDPC" ++ le_bytes 4 1 ++ le_bytes 4 3 ++ le_bytes 4 5 ++ le_bytes 4 0
  ++ repeat 0 64 ++ le_bytes 4 1.

Definition pck_archive (path text : bytes) : bytes :=
  pck_header
  ++ le_bytes 4 (len path) ++ path
  ++ le_bytes 8 (len pck_header + 4 + len path + 8 + 8 + 16)
  ++ le_bytes 8 (len text)
  ++ repeat 0 16
  ++ text.

(** The archive of an inner file [strings.po], up to the size of the file. *)
Definition strings_po_directory : bytes :=
  pck_header ++ le_bytes 4 10 ++ lit "strings.po" ++ le_bytes 8 134.

(** A catalog line: [msgid], a space, and [s] between double quotes. *)
Definition msgid_line (s : str) : str := lit "msgid " ++ [34] ++ s ++ [34].

(** Lines joined by newlines. *)
Fixpoint join_lines (lines : list str) : str :=
  match lines with
  | [] => []
  | [l] => l
  | l :: ls => l ++ 10 :: join_lines ls
  end.

(** The archive of the scenario: [strings.po] holds one catalog line. *)
Definition hello_archive : bytes := pck_archive (lit "strings.po") (msgid_line (lit "Hello")).

(** The lines around the catalog line in a longer file. *)
Definition catalog_above : list str := [lit "# Italian catalog"; lit "msgid " ++ [34; 34]].
Definition catalog_below : list str := [lit "msgstr " ++ [34; 34]].

(** A run of eight spaces. *)
Definition spaces_run : bytes := repeat 32 8.

(** A translation for the key of [locres_hi]. *)
Definition buongiorno : dict := [(lit "NS.greeting", JString (lit "Buongiorno"))].

(** Stands for [int] where the keys of the samples are read: it accepts
    the strings of one or more ASCII digits. *)
Definition digits_only : str -> bool :=
  fun s => negb (len s =? 0) && forallb (fun c => (48 <=? c) && (c <=? 57)) s.

(** Stands for the table of printable characters beyond ASCII where only
    ASCII text is scanned. *)
Definition ascii_only : Z -> bool := fun _ => false.

(** Two lines of a textual asset with the same field name. *)
Definition yaml_repeated : bytes := lit "name: Alice" ++ [10] ++ lit "name: Bobby".

End Fixtures.

(** ** Vocabulary of the further properties *)

(** The part of a translation key that [patch_locres] searches for: what
    follows its last dot, or the whole key when it has none. *)
Definition key_segment (key : str) : str :=
  if contains 46 key then snd (rsplit1 46 key) else key.

(** No key segment of the map holds a surrogate code point. *)
Definition keys_encodable (translations : dict) : bool :=
  forallb (fun kv => negb (existsb is_surrogate (key_segment (fst kv)))) translations.

(** The engines that [generate_patch] dispatches. *)
Definition patch_engines : list str :=
  [lit "unity"; lit "unreal"; lit "rpgmaker_xp"].

(** A translation map with a key that JSON can carry and UTF-8 cannot. *)
Definition surrogate_key : dict := [(lit "NS." ++ [55296], JString (lit "x"))].

(** An item of the translation map at which the loop of [patch_rvdata2]
    stops with [AttributeError]: its key is [str_] followed by something
    [int] accepts, and its value is not a string. *)
Definition is_string (translation : json_value) : bool :=
  match translation with
  | JString _ => true
  | JNotString => false
  end.

Definition stops_rvdata2_patch (int_accepts : str -> bool) (item : str * json_value)
    : bool :=
  startswith (fst item) (lit "str_")
  && int_accepts (slice (fst item) 4 (len (fst item)))
  && negb (is_string (snd item)).

(** Translation maps for the scan keys: a number for the first string, and
    a string with a surrogate code point, which UTF-8 cannot carry. *)
Definition number_for_str_0 : dict := [(lit "str_0", JNotString)].
Definition surrogate_for_str_0 : dict := [(lit "str_0", JString [55296])].

(** What every record of the heuristic scanner satisfies. *)
Definition scanner_record (filename : str) (r : StringRecord) : Prop :=
  file r = filename
  /\ 0 < len (original r)
  /\ Forall (fun c => Scanner.is_text_byte c = true) (original r)
  /\ isspace (hd 0 (original r)) = false
  /\ isspace (last (original r) 0) = false
  /\ startswith (original r) (lit "//") = false
  /\ startswith (original r) (lit "#!") = false.

(** What the loop of the scanner keeps true after [n] bytes: text bytes in
    [current], well-formed records in [strings], and nine bytes read for
    every record (a run of eight and the byte that closed it). *)
Definition scanner_sound (filename : str) (n : Z) (st : Scanner.state) : Prop :=
  Scanner.text_run (Scanner.current st)
  /\ Forall (scanner_record filename) (Scanner.strings st)
  /\ 9 * Z.of_nat (Scanner.idx st) + len (Scanner.current st) <= n.

(** *** The layout that [parse_locres] reads, written out

    A table is a list of namespaces, each with its entries: a key, a hash
    and a value. *)

Module Layout.

Definition u32 (v : Z) : bytes := Fixtures.le_bytes 4 v.

(** A signed 32-bit integer in two's complement. *)
Definition i32 (v : Z) : bytes := Fixtures.le_bytes 4 (if v <? 0 then v + 2 ^ 32 else v).

(** An FString in UTF-8 for ASCII text: the length counts the NUL that ends
    the text; the empty string is the length 0 alone. *)
Definition fstring (s : str) : bytes :=
  match s with
  | [] => i32 0
  | _ => i32 (len s + 1) ++ s ++ [0]
  end.

(** The 16-bit units of a text of the basic plane, low byte first. *)
Definition utf16_units (s : str) : bytes := flat_map (fun c => [c mod 256; c / 256]) s.

(** An FString in UTF-16: the length is the opposite of the number of
    units, the NUL unit that ends the text included. *)
Definition fstring_utf16 (s : str) : bytes :=
  match s with
  | [] => i32 0
  | _ => i32 (- (len s + 1)) ++ utf16_units (s ++ [0])
  end.

(** ASCII text without NUL, short enough for a 32-bit length. *)
Definition ascii_text (s : str) : bool :=
  forallb (fun c => (1 <=? c) && (c <? 128)) s && (len s + 1 <? 2 ^ 31).

(** Text of the basic plane without NUL and without surrogates. *)
Definition bmp_text (s : str) : bool :=
  forallb (fun c => ((1 <=? c) && (c <? 55296)) || ((57344 <=? c) && (c <? 65536))) s
  && (len s + 1 <? 2 ^ 31).

Definition entry : Type := str * Z * str.

Definition entry_bytes (e : entry) : bytes :=
  let '(k, h, v) := e in fstring k ++ u32 h ++ fstring v.

Definition namespace_bytes (n : str * list entry) : bytes :=
  let (ns, entries) := n in
  fstring ns ++ u32 (len entries) ++ flat_map entry_bytes entries.

Definition table_bytes (magic : bytes) (version : Z) (table : list (str * list entry))
  : bytes :=
  magic ++ u32 version ++ u32 (len table) ++ flat_map namespace_bytes table.

Definition valid_entry (e : entry) : bool :=
  let '(k, h, v) := e in
  ascii_text k && ((0 <=? h) && (h <? 2 ^ 32)) && ascii_text v.

Definition valid_namespace (n : str * list entry) : bool :=
  let (ns, entries) := n in
  ascii_text ns && (len entries <? 2 ^ 32) && forallb valid_entry entries.

Definition valid_table (table : list (str * list entry)) : bool :=
  (len table <? 2 ^ 32) && forallb valid_namespace table.

(** The records of a table: one for each value that is not empty. *)
Definition entry_records (filename namespace : str) (e : entry) : list StringRecord :=
  let '(k, h, v) := e in
  if len v =? 0 then []
  else [mkStringRecord (namespace ++ lit "." ++ k) v filename].

Definition namespace_records (filename : str) (n : str * list entry)
  : list StringRecord :=
  let (ns, entries) := n in flat_map (entry_records filename ns) entries.

Definition table_records (filename : str) (table : list (str * list entry))
  : list StringRecord :=
  flat_map (namespace_records filename) table.

(** A table of two namespaces, with an empty value and an empty namespace. *)
Definition sample_table : list (str * list entry) :=
  [(lit "Menu", [(lit "start", 17, lit "Start game"); (lit "blank", 18, [])]);
   ([], [(lit "quit", 19, lit "Quit")])].

End Layout.

(** What every record of the structured walk of [parse_locres] satisfies. *)
Definition locres_record (filename : str) (r : StringRecord) : Prop :=
  file r = filename
  /\ 0 < len (original r)
  /\ last (original r) 1 <> 0
  /\ exists namespace k, key r = namespace ++ lit "." ++ k.

(** What every record of the structured walk of [parse_godot_pck]
    satisfies. *)
Definition pck_record (r : StringRecord) : Prop :=
  Pck.endswith_any (file r) Pck.text_suffixes = true
  /\ 2 <= len (original r)
  /\ exists i, key r = lit "pck_" ++ file r ++ lit "_" ++ str_of_nat i.

(** What every record of [parse_unity_yaml_fallback] satisfies. *)
Definition yaml_record (filename : str) (r : StringRecord) : Prop :=
  file r = filename
  /\ key r <> []
  /\ 4 <= len (original r)
  /\ contains (hd 0 (original r)) [34; 39; 123; 91] = false
  /\ contains (last (original r) 0) [34; 39] = false.

(** What the loop of [parse_rvdata2] keeps true besides [rv_invariant]: five
    bytes of the buffer before the cursor for every record, the tag, the
    length byte and three bytes of text at least. *)
Definition rv_bounded (content : bytes) (st : rv_state) : Prop :=
  0 <= rv_pos st
  /\ Z.of_nat (rv_i st) = len (rv_strings st)
  /\ 5 * Z.of_nat (rv_i st) + 2 <= rv_pos st
  /\ (rv_i st = 0%nat \/ 5 * Z.of_nat (rv_i st) + 2 <= len content).

(** The file extensions that send a file to [parse_unity] whatever the
    engine hint is. *)
Definition unity_extensions : list str :=
  [lit ".assets"; lit ".asset"; lit ".bundle"].

(** The answer of [parse_file] for a format it does not support. *)
Definition refused (filename : str) : option (result ParseResponse) :=
  Some (Raise (HTTPException 500 (ErroreParsing
          (HTTPException 400 (FormatoNonSupportato filename))))).

(** *** The stream that [parse_rvdata2] reads, written out *)

Module RvLayout.

(** A string object: the tag, the length on one byte when it is below 128
    and otherwise the byte 0x82 and the length on two bytes, then the text. *)
Definition rv_object (text : bytes) : bytes :=
  if len text <? 128 then [34; len text] ++ text
  else [34; 130] ++ Fixtures.le_bytes 2 (len text) ++ text.

(** Two bytes of magic, string objects one after the other, and a tail. *)
Definition rv_stream (m0 m1 : Z) (texts : list bytes) (tail : bytes) : bytes :=
  [m0; m1] ++ flat_map rv_object texts ++ tail.

(** Printable ASCII, of 3 characters at least and fewer than 65536. *)
Definition printable_text (t : str) : bool :=
  forallb (fun c => (32 <=? c) && (c <? 127)) t && (3 <=? len t) && (len t <? 65536).

(** The records of the texts, numbered from [i]. *)
Definition rv_records (filename : str) (i : nat) (texts : list str) : list StringRecord :=
  map (fun it => mkStringRecord (lit "str_" ++ str_of_nat (fst it)) (snd it) filename)
      (enumerate_from i texts).

(** Three texts, the last of 130 characters. *)
Definition sample_texts : list str :=
  [lit "New Game"; lit "Continue"; repeat 65 130].

End RvLayout.

(** *** The lines that [parse_unity_yaml_fallback] reads, written out *)

Module YamlLayout.

(** A field of a textual asset: the name, a colon, a space and the value. *)
Definition field_line (field : str * str) : str :=
  fst field ++ lit ": " ++ snd field.

Definition is_plain_char (c : Z) : bool :=
  (0 <=? c) && (c <? 128) && negb (c =? 10).

(** A name: ASCII without colon or newline, that does not start with a
    dash or white space and does not end with white space. *)
Definition valid_name (k : str) : bool :=
  forallb (fun c => is_plain_char c && negb (c =? 58)) k
  && negb (isspace (hd 32 k)) && negb (hd 32 k =? 45) && negb (isspace (last k 32)).

(** A value: ASCII without newline, of 4 characters at least, that does not
    start with white space, a quote, a brace or a bracket and does not end
    with white space or a quote. *)
Definition valid_value (v : str) : bool :=
  forallb is_plain_char v && (4 <=? len v)
  && negb (isspace (hd 32 v)) && negb (contains (hd 32 v) [34; 39; 123; 91])
  && negb (isspace (last v 32)) && negb (contains (last v 32) [34; 39]).

Definition valid_field (field : str * str) : bool :=
  valid_name (fst field) && valid_value (snd field).

Definition field_record (filename : str) (field : str * str) : StringRecord :=
  mkStringRecord (fst field) (snd field) filename.

Definition sample_fields : list (str * str) :=
  [(lit "m_Name", lit "Main Menu"); (lit "m_Text", lit "Press any key: now")].

End YamlLayout.

(** *** The archive that [parse_godot_pck] reads, written out *)

Module PckLayout.

Record inner_file := mkInner {
  inner_path : str;
  inner_pad : nat;
  inner_md5 : bytes;
  inner_data : bytes
}.

Definition u32 (v : Z) : bytes := Fixtures.le_bytes 4 v.
Definition u64 (v : Z) : bytes := Fixtures.le_bytes 8 v.

(** The path as the directory holds it: padded with NUL bytes. *)
Definition padded_path (f : inner_file) : bytes :=
  inner_path f ++ repeat 0 (inner_pad f).

(** A directory entry for a file stored at [offset]. *)
Definition entry_bytes (offset : Z) (f : inner_file) : bytes :=
  u32 (len (padded_path f)) ++ padded_path f
  ++ u64 offset ++ u64 (len (inner_data f)) ++ inner_md5 f.

(** The directory of files stored one after the other from [offset]. *)
Fixpoint directory (offset : Z) (files : list inner_file) : bytes :=
  match files with
  | [] => []
  | f :: fs => entry_bytes offset f ++ directory (offset + len (inner_data f)) fs
  end.

Definition payload (files : list inner_file) : bytes := flat_map inner_data files.

Definition header (version major minor patch : Z) (reserved : bytes) (count : Z) : bytes :=
  lit "GDPC" ++ u32 version ++ u32 major ++ u32 minor ++ u32 patch
  ++ reserved ++ u32 count.

(** The archive: header, directory, then the files right after it.  The
    length of a directory does not depend on its offsets. *)
Definition archive (version major minor patch : Z) (reserved : bytes)
    (files : list inner_file) : bytes :=
  let head := header version major minor patch reserved (len files) in
  head ++ directory (len head + len (directory 0 files)) files ++ payload files.

Definition is_u32 (v : Z) : bool := (0 <=? v) && (v <? 2 ^ 32).

(** A path in ASCII without NUL, a checksum of 16 bytes. *)
Definition valid_file (f : inner_file) : bool :=
  forallb (fun c => (1 <=? c) && (c <? 128)) (inner_path f)
  && (len (padded_path f) <? 2 ^ 32)
  && (len (inner_md5 f) =? 16).

(** Each file lies in [content] where the directory says, from [offset]. *)
Fixpoint stored_at (content : bytes) (offset : Z) (files : list inner_file) : Prop :=
  match files with
  | [] => True
  | f :: fs =>
      slice content offset (offset + len (inner_data f)) = inner_data f
      /\ stored_at content (offset + len (inner_data f)) fs
  end.

(** The records of a file: those of its lines when its path has a text
    extension, none otherwise. *)
Definition inner_records (f : inner_file) : list StringRecord :=
  if Pck.endswith_any (inner_path f) Pck.text_suffixes
  then Pck.file_records (inner_path f) (inner_data f)
  else [].

(** An image, a catalog with two entries and a padded path, and a scene. *)
Definition sample_files : list inner_file :=
  [mkInner (lit "res://icon.png") 2 (repeat 0 16) [137; 80; 78; 71; 10; 109; 115; 103];
   mkInner (lit "res://it.po") 5 (repeat 7 16)
     (Fixtures.join_lines [Fixtures.msgid_line (lit "Start"); lit "msgstr";
                           Fixtures.msgid_line (lit "Quit")]);
   mkInner (lit "res://main.tscn") 0 (repeat 0 16) (Fixtures.msgid_line (lit "Hidden"))].

End PckLayout.

(** *** Strings in a binary, as the heuristic scanner finds them *)

Module CStrings.

(** A string of 8 text bytes at least, with no white space at its ends and
    no comment marker at its start. *)
Definition valid_string (t : str) : bool :=
  forallb Scanner.is_text_byte t && (8 <=? len t)
  && negb (isspace (hd 32 t)) && negb (isspace (last t 32))
  && negb (startswith t (lit "//")) && negb (startswith t (lit "#!")).

(** A string and the byte that ends it, which is not a text byte. *)
Definition valid_item (item : str * Z) : bool :=
  valid_string (fst item) && negb (Scanner.is_text_byte (snd item)).

Definition segment (item : str * Z) : bytes := fst item ++ [snd item].

Definition segments (items : list (str * Z)) : bytes := flat_map segment items.

Definition records (filename : str) (items : list (str * Z)) : list StringRecord :=
  map (fun it => mkStringRecord (lit "bin_" ++ str_of_nat (fst it)) (fst (snd it)) filename)
      (enumerate items).

Definition sample_items : list (str * Z) :=
  [(lit "Hello, world", 0); (lit "Press START to play", 255); (lit "GAME OVER", 0)].

End CStrings.

(** * Properties *)

(** ** Lists, slices and counters *)

Lemma len_nonneg {A} (l : list A) : 0 <= len l.
Proof. unfold len; lia. Qed.

Lemma len_app {A} (a b : list A) : len (a ++ b) = len a + len b.
Proof. unfold len; rewrite length_app; lia. Qed.

Lemma len_cons {A} (x : A) (l : list A) : len (x :: l) = 1 + len l.
Proof. unfold len; simpl List.length; lia. Qed.

Lemma NoDup_firstn {A} (n : nat) (l : list A) : NoDup l -> NoDup (firstn n l).
Proof.
  intros H; revert n; induction H as [|x l Hx Hl IH]; intros [|n]; simpl;
    try constructor; auto.
  intros Hin; apply Hx.
  rewrite <- (firstn_skipn n l); apply in_or_app; now left.
Qed.

Lemma Forall_firstn {A} (P : A -> Prop) (n : nat) (l : list A) :
  Forall P l -> Forall P (firstn n l).
Proof.
  intros H; revert n; induction H; intros [|n]; simpl; constructor; auto.
Qed.

Lemma Forall_skipn {A} (P : A -> Prop) (n : nat) (l : list A) :
  Forall P l -> Forall P (skipn n l).
Proof.
  intros H; revert n; induction H; intros [|n]; simpl; auto.
Qed.

Lemma Forall_slice {A} (P : A -> Prop) (l : list A) (lo hi : Z) :
  Forall P l -> Forall P (slice l lo hi).
Proof. intros H; unfold slice; now apply Forall_firstn, Forall_skipn. Qed.

(** A slice between two positions inside the sequence. *)
Lemma slice_inside {A} (l : list A) (lo hi : Z) :
  0 <= lo <= hi -> hi <= len l ->
  slice l lo hi = firstn (Z.to_nat (hi - lo)) (skipn (Z.to_nat lo) l).
Proof.
  intros Hlo Hhi; unfold slice, clip.
  destruct (Z.ltb_spec lo 0), (Z.ltb_spec hi 0); try lia.
  now rewrite !Z.min_l by lia.
Qed.

(** A slice whose end may lie beyond the sequence: it is cut there. *)
Lemma slice_from {A} (l : list A) (lo hi : Z) :
  0 <= lo <= hi ->
  slice l lo hi = firstn (Z.to_nat (hi - lo)) (skipn (Z.to_nat lo) l).
Proof.
  intros Hlo; unfold slice, clip.
  destruct (Z.ltb_spec lo 0), (Z.ltb_spec hi 0); try lia.
  pose proof (len_nonneg l) as Hl. unfold len in *.
  destruct (Z.le_gt_cases lo (Z.of_nat (List.length l))) as [Hin|Hout].
  - rewrite (Z.min_l lo) by lia.
    destruct (Z.le_gt_cases hi (Z.of_nat (List.length l))).
    + now rewrite Z.min_l by lia.
    + rewrite Z.min_r by lia.
      rewrite !firstn_all2; auto; rewrite length_skipn; lia.
  - rewrite !Z.min_r by lia.
    rewrite !skipn_all2 by lia. now rewrite !firstn_nil.
Qed.

Lemma slice_after {A} (a l : list A) (n : Z) :
  0 <= n -> slice (a ++ l) (len a) (len a + n) = firstn (Z.to_nat n) l.
Proof.
  intros Hn. rewrite slice_from by (pose proof (len_nonneg a); lia).
  replace (len a + n - len a) with n by lia.
  unfold len. rewrite Nat2Z.id, skipn_app, skipn_all, Nat.sub_diag. reflexivity.
Qed.

Lemma lit_injective : forall s t, lit s = lit t -> s = t.
Proof.
  intros s t H. rewrite <- (string_of_list_ascii_of_string s),
    <- (string_of_list_ascii_of_string t). f_equal.
  unfold lit in H. revert H.
  generalize (list_ascii_of_string s) (list_ascii_of_string t).
  induction l as [|a l IH]; intros [|b m]; simpl; intros H; try discriminate; auto.
  injection H as Hab Hlm. f_equal; auto.
  apply Nat2Z.inj in Hab.
  rewrite <- (ascii_nat_embedding a), <- (ascii_nat_embedding b). now f_equal.
Qed.

Lemma str_of_nat_injective : forall n m, str_of_nat n = str_of_nat m -> n = m.
Proof.
  intros n m H. apply lit_injective in H.
  assert (Hs : Some (Nat.to_uint n) = Some (Nat.to_uint m))
    by (rewrite <- !NilEmpty.usu; now f_equal).
  injection Hs as Hu.
  rewrite <- (Unsigned.of_to n), <- (Unsigned.of_to m). now f_equal.
Qed.


Lemma counter_keys_S prefix n :
  counter_keys prefix (S n) = counter_keys prefix n ++ [prefix ++ str_of_nat n].
Proof. unfold counter_keys. now rewrite seq_S, map_app. Qed.

Lemma counter_keys_length prefix n : List.length (counter_keys prefix n) = n.
Proof. unfold counter_keys. now rewrite length_map, length_seq. Qed.

Lemma counter_keys_NoDup prefix n : NoDup (counter_keys prefix n).
Proof.
  unfold counter_keys. apply Injective_map_NoDup; [|apply seq_NoDup].
  intros i j H. apply app_inv_head in H. now apply str_of_nat_injective.
Qed.

(** ** The heuristic scanner *)

Module ScannerFacts.
Import Scanner.


Lemma is_text_byte_spec b :
  is_text_byte b = true <-> (32 <= b <= 126 \/ b = 9 \/ b = 10 \/ b = 13).
Proof. unfold is_text_byte. lia. Qed.

Lemma fold_text filename run st :
  text_run run ->
  fold_left (step filename) run st = mkState (strings st) (current st ++ run) (idx st).
Proof.
  intros H; revert st; induction H as [|b run Hb _ IH]; intros st; simpl.
  - rewrite app_nil_r. now destruct st.
  - rewrite IH. unfold step. rewrite Hb. simpl. now rewrite <- app_assoc.
Qed.

Lemma step_close filename st t :
  is_text_byte t = false ->
  step filename st t =
    mkState (strings st ++ run_records filename (idx st) (current st)) []
            (idx st + List.length (run_records filename (idx st) (current st))).
Proof.
  intros Ht. unfold step, run_records. rewrite Ht.
  destruct (8 <=? len (current st)); simpl.
  - destruct (keeps (strip (current st))); simpl.
    + now rewrite Nat.add_1_r.
    + now rewrite app_nil_r, Nat.add_0_r.
  - now rewrite app_nil_r, Nat.add_0_r.
Qed.

Lemma run_at_boundary filename content :
  at_boundary content -> current (run filename content) = [].
Proof.
  intros [->|(p & t & -> & Ht)]; [reflexivity|].
  unfold run. rewrite fold_left_app. simpl. now rewrite step_close.
Qed.


Lemma step_counted filename st b : counted st -> counted (step filename st b).
Proof.
  unfold counted, step; intros H.
  destruct (is_text_byte b); simpl; auto.
  destruct (8 <=? len (current st)); simpl; auto.
  destruct (keeps (strip (current st))); simpl; auto.
  now rewrite map_app, counter_keys_S, H.
Qed.

Lemma fold_counted filename content st :
  counted st -> counted (fold_left (step filename) content st).
Proof.
  revert st; induction content as [|b content IH]; intros st H; simpl; auto.
  apply IH. now apply step_counted.
Qed.

Lemma run_counted filename content : counted (run filename content).
Proof. apply fold_counted. reflexivity. Qed.

Lemma counted_idx st : counted st -> idx st = List.length (strings st).
Proof.
  intros H. apply (f_equal (@List.length str)) in H.
  now rewrite length_map, counter_keys_length in H.
Qed.

(** Records are only ever appended. *)
Lemma fold_extends filename content st :
  exists later, strings (fold_left (step filename) content st) = strings st ++ later.
Proof.
  revert st; induction content as [|b content IH]; intros st; simpl.
  - exists []. now rewrite app_nil_r.
  - destruct (IH (step filename st b)) as [later ->].
    unfold step. destruct (is_text_byte b); simpl; eauto.
    destruct (8 <=? len (current st)); simpl; eauto.
    destruct (keeps (strip (current st))); simpl; eauto.
    rewrite <- app_assoc. eauto.
Qed.

Lemma run_closed_run filename before run t :
  at_boundary before -> text_run run -> is_text_byte t = false ->
  strings (Scanner.run filename (before ++ run ++ [t])) =
    strings (Scanner.run filename before)
    ++ run_records filename (List.length (strings (Scanner.run filename before))) run.
Proof.
  intros Hb Hr Ht. unfold Scanner.run.
  rewrite !fold_left_app. fold (Scanner.run filename before).
  rewrite (fold_text filename run) by assumption. simpl fold_left.
  rewrite step_close by assumption. simpl.
  rewrite (run_at_boundary _ _ Hb). simpl.
  now rewrite (counted_idx _ (run_counted filename before)).
Qed.

End ScannerFacts.

(** C9, as amended.  A byte is part of a run exactly when it is printable
    ASCII (32 to 126), a tab, a newline or a carriage return.  A run that
    starts at a run boundary and is closed by another byte adds exactly one
    record when it has at least 8 characters before trimming and its trimmed
    text is not empty and does not start with [//] or [#!], and no record
    otherwise; the record holds the trimmed text under the key [bin_] followed
    by the number of records made before it.  Later bytes only append
    records, and the returned list is the first 500 records at most. *)
Theorem heuristic_scanner_runs (filename : str) (before run after : bytes) (t : Z) :
  Scanner.at_boundary before ->
  Scanner.text_run run ->
  Scanner.is_text_byte t = false ->
  let scan c := Scanner.strings (Scanner.run filename c) in
  (forall b, Scanner.is_text_byte b = true <-> (32 <= b <= 126 \/ b = 9 \/ b = 10 \/ b = 13))
  /\ scan (before ++ run ++ [t]) =
       scan before ++
       (if (8 <=? len run) && negb (len (strip run) =? 0)
           && negb (startswith (strip run) (lit "//"))
           && negb (startswith (strip run) (lit "#!"))
        then [mkStringRecord (lit "bin_" ++ str_of_nat (List.length (scan before)))
                (strip run) filename]
        else [])
  /\ (exists later, scan (before ++ run ++ t :: after) = scan (before ++ run ++ [t]) ++ later)
  /\ extract_strings_from_binary (before ++ run ++ t :: after) filename =
       firstn 500 (scan (before ++ run ++ t :: after))
  /\ (List.length (extract_strings_from_binary (before ++ run ++ t :: after) filename) <= 500)%nat.
Proof.
  intros Hb Hr Ht scan. repeat split.
  - apply ScannerFacts.is_text_byte_spec.
  - apply ScannerFacts.is_text_byte_spec.
  - unfold scan. rewrite ScannerFacts.run_closed_run by assumption.
    unfold Scanner.run_records, Scanner.keeps.
    now rewrite !andb_assoc.
  - unfold scan, Scanner.run.
    replace (before ++ run ++ t :: after) with ((before ++ run ++ [t]) ++ after)
      by (now rewrite <- !app_assoc).
    rewrite fold_left_app. apply ScannerFacts.fold_extends.
  - unfold extract_strings_from_binary. apply firstn_le_length.
Qed.

(** C10.  A run of text bytes that reaches the end of the buffer adds no
    record, whatever its length: the result is that of the buffer without
    it. *)
Theorem trailing_run_not_emitted (content run : bytes) (filename : str) :
  Scanner.text_run run ->
  extract_strings_from_binary (content ++ run) filename =
  extract_strings_from_binary content filename.
Proof.
  intros Hr. unfold extract_strings_from_binary, Scanner.run.
  rewrite fold_left_app, ScannerFacts.fold_text by assumption. reflexivity.
Qed.

(** A closed run of eight spaces: at least 8 characters, nothing left of it
    after trimming, so no comment marker at its start, and no record. *)
Lemma whitespace_run_makes_no_record :
  Scanner.text_run Fixtures.spaces_run
  /\ 8 <= len Fixtures.spaces_run
  /\ startswith (strip Fixtures.spaces_run) (lit "//") = false
  /\ startswith (strip Fixtures.spaces_run) (lit "#!") = false
  /\ extract_strings_from_binary (Fixtures.spaces_run ++ [0]) (lit "f.bin") = [].
Proof.
  split; [repeat constructor|].
  split; [vm_compute; discriminate|].
  repeat split; reflexivity.
Qed.

Lemma heuristic_scanner_runs_witness :
  Scanner.at_boundary [0]
  /\ Scanner.text_run (lit "  Hello, world ")
  /\ Scanner.is_text_byte 0 = false
  /\ Scanner.strings (Scanner.run (lit "f.bin") ([0] ++ lit "  Hello, world " ++ [0])) =
       [mkStringRecord (lit "bin_0") (lit "Hello, world") (lit "f.bin")].
Proof.
  assert (Hb : Scanner.at_boundary [0])
    by (right; exists [], 0; split; reflexivity).
  assert (Hr : Scanner.text_run (lit "  Hello, world "))
    by (repeat constructor).
  assert (Ht : Scanner.is_text_byte 0 = false) by reflexivity.
  split; [assumption|]. split; [assumption|]. split; [assumption|].
  exact (proj1 (proj2 (heuristic_scanner_runs (lit "f.bin") [0]
                         (lit "  Hello, world ") [] 0 Hb Hr Ht))).
Defined.

Lemma trailing_run_not_emitted_witness :
  Scanner.text_run (lit "Hello, world")
  /\ extract_strings_from_binary ([1; 2; 0] ++ lit "Hello, world") (lit "f.bin") =
     extract_strings_from_binary [1; 2; 0] (lit "f.bin").
Proof.
  assert (Hr : Scanner.text_run (lit "Hello, world")) by (repeat constructor).
  split; [assumption|].
  exact (trailing_run_not_emitted [1; 2; 0] (lit "Hello, world") (lit "f.bin") Hr).
Defined.

(** ** Reading a [.locres] table *)


Module LocresFacts.
Import Cursor Locres.

Lemma unpack_unsigned_at (size : Z) (before field rest : bytes) :
  len field = size ->
  unpack_unsigned size (before ++ field ++ rest) (len before)
  = Ok (from_bytes_little field).
Proof.
  intros Hsize. unfold unpack_unsigned.
  pose proof (len_nonneg rest) as Hrest.
  rewrite !len_app.
  destruct (Z.leb_spec (len before + size) (len before + (len field + len rest)));
    [|lia].
  rewrite slice_after by (pose proof (len_nonneg field); lia).
  rewrite <- Hsize. unfold len. rewrite Nat2Z.id.
  rewrite firstn_app, firstn_all, Nat.sub_diag. simpl. now rewrite app_nil_r.
Qed.

Lemma read_int32_at (before rest : bytes) (b0 b1 b2 b3 : Z) :
  read_int32 (before ++ [b0; b1; b2; b3] ++ rest) (len before)
  = Ok (int32_le b0 b1 b2 b3, len before + 4).
Proof.
  unfold read_int32, read_with, unpack_i, unpack_I.
  rewrite unpack_unsigned_at by reflexivity.
  unfold int32_le, from_bytes_little.
  replace (b0 + 256 * (b1 + 256 * (b2 + 256 * (b3 + 256 * 0))))
    with (b0 + 2 ^ 8 * b1 + 2 ^ 16 * b2 + 2 ^ 24 * b3) by lia.
  reflexivity.
Qed.

Lemma read_text_at (decode : bytes -> str) (before rest : bytes) (n : Z) :
  0 <= n ->
  read_text (before ++ rest) decode n (len before)
  = Ok (rstrip_chars [0] (decode (firstn (Z.to_nat n) rest)), len before + n).
Proof. intros Hn. unfold read_text. now rewrite slice_after. Qed.

End LocresFacts.

(** C5.  [read_fstring] at a cursor where the four bytes [b0 b1 b2 b3] are
    followed by [rest]: the four bytes are read as a signed 32-bit
    little-endian length.  A positive length has that many bytes of [rest]
    decoded as UTF-8; a negative length has twice its absolute value in
    bytes, that is its absolute value in 16-bit units, decoded as UTF-16LE;
    the cursor moves past the prefix and the payload.  A zero length gives
    the empty string and the cursor only moves past the prefix.  (Trailing
    NUL characters of the decoded text are dropped.) *)
Theorem read_fstring_decodes (before rest : bytes) (b0 b1 b2 b3 : Z) :
  let content := before ++ [b0; b1; b2; b3] ++ rest in
  let length := int32_le b0 b1 b2 b3 in
  Locres.read_fstring content (len before) =
    Ok (if length =? 0 then
          ([], len before + 4)
        else if 0 <? length then
          (rstrip_chars [0] (decode_utf8_replace (firstn (Z.to_nat length) rest)),
           len before + 4 + length)
        else
          (rstrip_chars [0]
             (decode_utf16le_replace (firstn (Z.to_nat (2 * - length)) rest)),
           len before + 4 + 2 * - length)).
Proof.
  intros content length. unfold Locres.read_fstring, Cursor.bind.
  unfold content. rewrite LocresFacts.read_int32_at. fold length.
  destruct (Z.eqb_spec length 0) as [|Hnz]; [reflexivity|].
  replace (before ++ [b0; b1; b2; b3] ++ rest)
    with ((before ++ [b0; b1; b2; b3]) ++ rest) by (now rewrite <- app_assoc).
  replace (len before + 4) with (len (before ++ [b0; b1; b2; b3]))
    by (now rewrite len_app).
  destruct (Z.ltb_spec length 0), (Z.ltb_spec 0 length); try lia.
  - rewrite LocresFacts.read_text_at by lia.
    now replace (- length * 2) with (2 * - length) by lia.
  - now rewrite LocresFacts.read_text_at by lia.
Qed.

(** *** Failures of the walk *)

Module WalkFailure.
Import Cursor Locres.
Local Open Scope cursor_scope.


Lemma ret_fails_short {A} content (a : A) : fails_short content (ret a).
Proof. intros pos e H. discriminate. Qed.

Lemma bind_fails_short {A B} content (m : reader A) (k : A -> reader B) :
  fails_short content m -> (forall a, fails_short content (k a)) ->
  fails_short content (bind m k).
Proof.
  intros Hm Hk pos e. unfold bind.
  destruct (m pos) as [[a pos']|e'] eqn:E.
  - apply Hk.
  - intros H; injection H as <-. eapply Hm; eauto.
Qed.

Lemma unpack_I_short content pos e :
  unpack_I content pos = Raise e -> short_read content e.
Proof.
  unfold unpack_I, unpack_unsigned.
  destruct (Z.leb_spec (pos + 4) (len content)) as [Hin|Hout]; [discriminate|].
  intros He; injection He as <-. exists pos. split; [reflexivity|lia].
Qed.

Lemma read_uint32_fails_short content : fails_short content (read_uint32 content).
Proof.
  intros pos e. unfold read_uint32, read_with.
  destruct (unpack_I content pos) eqn:E; [discriminate|].
  intros H; injection H as <-. eapply unpack_I_short; eauto.
Qed.

Lemma read_int32_fails_short content : fails_short content (read_int32 content).
Proof.
  intros pos e. unfold read_int32, read_with, unpack_i.
  destruct (unpack_I content pos) eqn:E; [discriminate|].
  intros H; injection H as <-. eapply unpack_I_short; eauto.
Qed.

Lemma read_text_fails_short content decode n :
  fails_short content (read_text content decode n).
Proof. intros pos e H. discriminate. Qed.

Lemma read_fstring_fails_short content : fails_short content (read_fstring content).
Proof.
  unfold read_fstring. apply bind_fails_short.
  - apply read_int32_fails_short.
  - intros length. destruct (length =? 0); [apply ret_fails_short|].
    destruct (length <? 0); apply read_text_fails_short.
Qed.

Lemma read_keys_fails_short content n namespace filename strings :
  fails_short content (read_keys content n namespace filename strings).
Proof.
  revert strings; induction n as [|n IH]; intros strings; simpl.
  - apply ret_fails_short.
  - apply bind_fails_short; [apply read_fstring_fails_short|intros key].
    apply bind_fails_short; [apply read_uint32_fails_short|intros _hash].
    apply bind_fails_short; [apply read_fstring_fails_short|intros value].
    apply IH.
Qed.

Lemma read_namespaces_fails_short content n filename strings :
  fails_short content (read_namespaces content n filename strings).
Proof.
  revert strings; induction n as [|n IH]; intros strings; simpl.
  - apply ret_fails_short.
  - apply bind_fails_short; [apply read_fstring_fails_short|intros namespace].
    apply bind_fails_short; [apply read_uint32_fails_short|intros key_count].
    apply bind_fails_short; [apply read_keys_fails_short|intros strings'].
    apply IH.
Qed.

Lemma walk_fails_short content filename e :
  walk content filename = Raise e -> short_read content e.
Proof.
  unfold walk.
  match goal with |- context [?m 16] => destruct (m 16) as [[s p]|e'] eqn:E end;
    [discriminate|].
  intros H; injection H as <-. revert E.
  apply bind_fails_short; [apply read_uint32_fails_short|intros version].
  apply bind_fails_short; [apply read_uint32_fails_short|intros ns_count].
  apply read_namespaces_fails_short.
Qed.

(** Past the last four bytes every read of an integer fails, and with it
    every read of an FString. *)
Lemma read_uint32_past_end content pos :
  len content < pos + 4 -> read_uint32 content pos = Raise (StructError pos 4).
Proof.
  intros H. unfold read_uint32, read_with, unpack_I, unpack_unsigned.
  destruct (Z.leb_spec (pos + 4) (len content)); [lia|reflexivity].
Qed.

Lemma read_fstring_past_end content pos :
  len content < pos + 4 -> read_fstring content pos = Raise (StructError pos 4).
Proof.
  intros H. unfold read_fstring, bind, read_int32, read_with, unpack_i, unpack_I,
    unpack_unsigned.
  destruct (Z.leb_spec (pos + 4) (len content)); [lia|reflexivity].
Qed.

End WalkFailure.

(** C4, as amended.  The failures of the structured walk are reads of a
    4-byte integer (a count, a hash or a length prefix) at an offset with
    fewer than four bytes left; on any of them the result is exactly that of
    the heuristic scanner on the whole buffer.  A payload that its length
    prefix makes longer than the buffer is not a failure by itself: it leaves
    the cursor past the end, where the next read of an integer or of an
    FString fails. *)
Theorem parse_locres_falls_back (content : bytes) (filename : str) (e : exn) :
  Locres.walk content filename = Raise e ->
  (exists offset, e = StructError offset 4 /\ len content < offset + 4)
  /\ parse_locres content filename = extract_strings_from_binary content filename
  /\ (forall pos, len content < pos + 4 ->
        Locres.read_uint32 content pos = Raise (StructError pos 4)
        /\ Locres.read_fstring content pos = Raise (StructError pos 4)).
Proof.
  intros H. split; [|split].
  - exact (WalkFailure.walk_fails_short content filename e H).
  - unfold parse_locres. now rewrite H.
  - intros pos Hpos. split.
    + now apply WalkFailure.read_uint32_past_end.
    + now apply WalkFailure.read_fstring_past_end.
Qed.

(** The last length prefix of [locres_cut] asks for 13 bytes where 10 are
    left: the walk does not fail, and the result is a structured record with
    the cut value, not the output of the scanner. *)
Lemma overlong_last_value_is_kept :
  Locres.read_int32 Fixtures.locres_cut 52 = Ok (13, 56)
  /\ len Fixtures.locres_cut = 66
  /\ parse_locres Fixtures.locres_cut (lit "game.locres") =
       [mkStringRecord (lit "NS.greeting") (lit "Hello, wor") (lit "game.locres")]
  /\ extract_strings_from_binary Fixtures.locres_cut (lit "game.locres") =
       [mkStringRecord (lit "bin_0") (lit "greeting") (lit "game.locres")]
  /\ parse_locres Fixtures.locres_cut (lit "game.locres") <>
       extract_strings_from_binary Fixtures.locres_cut (lit "game.locres").
Proof.
  repeat split; try (vm_compute; reflexivity).
  vm_compute. discriminate.
Qed.

Lemma parse_locres_falls_back_witness :
  Locres.walk Fixtures.locres_short (lit "game.locres") = Raise (StructError 48 4)
  /\ parse_locres Fixtures.locres_short (lit "game.locres") =
     extract_strings_from_binary Fixtures.locres_short (lit "game.locres").
Proof.
  assert (H : Locres.walk Fixtures.locres_short (lit "game.locres")
              = Raise (StructError 48 4)) by (vm_compute; reflexivity).
  split; [exact H|].
  exact (proj1 (proj2 (parse_locres_falls_back Fixtures.locres_short
                         (lit "game.locres") (StructError 48 4) H))).
Defined.

(** ** Patching *)

(** [patch_locres] writes the content it was given, whatever the
    translations. *)
Lemma patch_locres_items_unchanged (data : bytes) (translations : dict) (out : bytes) :
  patch_locres_items data translations = Ok out -> out = data.
Proof.
  induction translations as [|[key translation] rest IH]; simpl.
  - intros H; now injection H.
  - destruct (encode_utf8 _); [|discriminate].
    destruct (0 <=? find data _); exact IH.
Qed.

(** C1, at a table whose value [Hi] is stored with the length prefix 3 at
    offset 52.  Patching it with a translation of 10 bytes for its key
    writes the original buffer back: the prefix at offset 52 is still 3 and
    the value read back is still [Hi]. *)
Theorem patch_locres_keeps_original_bytes :
  parse_locres Fixtures.locres_hi (lit "game.locres") =
    [mkStringRecord (lit "NS.greeting") (lit "Hi") (lit "game.locres")]
  /\ Locres.read_int32 Fixtures.locres_hi 52 = Ok (3, 56)
  /\ encode_utf8 (lit "Buongiorno") = Ok (lit "Buongiorno")
  /\ len (lit "Buongiorno") = 10
  /\ patch_locres Fixtures.locres_hi Fixtures.buongiorno (lit "it") = Ok Fixtures.locres_hi.
Proof. repeat split; vm_compute; reflexivity. Qed.



(** ** The scan of a [.rvdata2] stream *)

Module RvFacts.

Lemma well_formed_Forall content :
  well_formed content -> Forall (fun b => 0 <= b < 256) content.
Proof.
  unfold well_formed. rewrite forallb_forall, Forall_forall.
  intros H b Hb. specialize (H b Hb). unfold is_byte in H. lia.
Qed.

Lemma getitem_inside (content : bytes) (i : Z) :
  0 <= i < len content -> getitem content i = Ok (byte_at content i).
Proof.
  intros H. unfold getitem, byte_at.
  destruct (Z.ltb_spec i 0); [lia|].
  destruct (Z.leb_spec 0 i); [|lia].
  destruct (Z.ltb_spec i (len content)); [reflexivity|lia].
Qed.

Lemma byte_at_range content i :
  well_formed content -> 0 <= i < len content -> 0 <= byte_at content i < 256.
Proof.
  intros Hwf Hi. apply well_formed_Forall in Hwf.
  rewrite Forall_forall in Hwf. apply Hwf. unfold byte_at.
  apply nth_In. unfold len in Hi. lia.
Qed.

Lemma from_bytes_little_nonneg (b : bytes) :
  Forall (fun x => 0 <= x < 256) b -> 0 <= from_bytes_little b.
Proof.
  induction 1 as [|x b Hx _ IH]; cbn [from_bytes_little]; lia.
Qed.

(** The test [length & 0x80] on a byte. *)
Lemma high_bit_test (b : Z) :
  0 <= b < 256 -> negb (Z.land b 128 =? 0) = negb (b <? 128).
Proof.
  intros Hb.
  assert (Hall : forallb (fun x => Bool.eqb (negb (Z.land x 128 =? 0)) (negb (x <? 128)))
                   (map Z.of_nat (seq 0 256)) = true) by (vm_compute; reflexivity).
  rewrite forallb_forall in Hall.
  apply Bool.eqb_prop, Hall.
  rewrite <- (Z2Nat.id b) by lia. apply in_map, in_seq. lia.
Qed.

Section Scan.
Variable unicode_printable : Z -> bool.
Variable content : bytes.
Variable filename : str.
Hypothesis Hwf : well_formed content.

Lemma rv_length_spec (lb pos : Z) :
  0 <= lb < 256 ->
  rv_length content lb pos =
    if lb <? 128 then (lb, pos)
    else (from_bytes_little (slice content pos (pos + Z.land lb 127)),
          pos + Z.land lb 127).
Proof.
  intros Hlb. unfold rv_length. rewrite (high_bit_test lb Hlb).
  now destruct (lb <? 128).
Qed.

Lemma rv_length_bounds (lb pos : Z) :
  0 <= lb < 256 ->
  0 <= fst (rv_length content lb pos) /\ pos <= snd (rv_length content lb pos).
Proof.
  intros Hlb. rewrite rv_length_spec by assumption.
  destruct (lb <? 128); simpl; [lia|].
  split.
  - apply from_bytes_little_nonneg, Forall_slice, well_formed_Forall, Hwf.
  - assert (0 <= Z.land lb 127) by (apply Z.land_nonneg; lia). lia.
Qed.

Lemma rv_string_inv (length pos : Z) (i : nat) (strings : list StringRecord) :
  0 <= length -> 0 <= pos ->
  map key strings = counter_keys (lit "str_") i ->
  Forall (rv_collected unicode_printable filename) strings ->
  rv_invariant unicode_printable filename (rv_string unicode_printable content filename length pos i strings)
  /\ pos <= rv_pos (rv_string unicode_printable content filename length pos i strings).
Proof.
  intros Hl Hp Hk Hc. unfold rv_string, rv_invariant.
  destruct (decode_utf8_strict _) as [s|e]; simpl.
  - destruct (Z.ltb_spec 2 (len s)); simpl.
    + destruct (isprintable unicode_printable s) eqn:Hprint; simpl.
      * repeat split; try lia.
        -- now rewrite map_app, counter_keys_S, Hk.
        -- apply Forall_app; split; [assumption|].
           constructor; [|constructor]. unfold rv_collected; simpl.
           repeat split; auto; lia.
      * repeat split; auto; lia.
    + repeat split; auto; lia.
  - repeat split; auto; lia.
Qed.

(** A turn inside the loop raises nothing, keeps the invariant and moves
    the cursor forward. *)
Lemma rv_turn_progress (st : rv_state) :
  rv_invariant unicode_printable filename st -> rv_pos st < len content - 4 ->
  exists st', rv_turn unicode_printable content filename st = Ok st'
              /\ rv_invariant unicode_printable filename st' /\ rv_pos st < rv_pos st'.
Proof.
  intros (Hpos & Hk & Hc) Hin. unfold rv_turn.
  rewrite getitem_inside by lia.
  destruct (byte_at content (rv_pos st) =? 34).
  - rewrite getitem_inside by lia.
    pose proof (byte_at_range content (rv_pos st + 1) Hwf ltac:(lia)) as Hlb.
    pose proof (rv_length_bounds (byte_at content (rv_pos st + 1)) (rv_pos st + 1 + 1) Hlb)
      as [Hlen Hstart].
    destruct (rv_length content _ _) as [length start]; simpl in Hlen, Hstart.
    destruct (rv_string_inv length start (rv_i st) (rv_strings st)) as [Hinv Hmove];
      auto; try lia.
    eexists; split; [reflexivity|]. split; [exact Hinv|lia].
  - eexists; split; [reflexivity|]. split; [|simpl; lia].
    unfold rv_invariant; simpl. repeat split; auto; lia.
Qed.

(** The loop ends within the fuel whenever the fuel covers the bytes
    still to scan. *)
Lemma rv_loop_returns (fuel : nat) (st : rv_state) :
  rv_invariant unicode_printable filename st -> len content - 4 - rv_pos st <= Z.of_nat fuel ->
  exists strings,
    rv_loop unicode_printable fuel content filename st = Some (Ok strings)
    /\ map key strings = counter_keys (lit "str_") (List.length strings)
    /\ Forall (rv_collected unicode_printable filename) strings.
Proof.
  revert st; induction fuel as [|fuel IH]; intros st Hinv Hfuel.
  - simpl. destruct (Z.ltb_spec (rv_pos st) (len content - 4)); [lia|].
    destruct Hinv as (_ & Hk & Hc). exists (rv_strings st).
    repeat split; auto.
    rewrite Hk. f_equal. apply (f_equal (@List.length str)) in Hk.
    now rewrite length_map, counter_keys_length in Hk.
  - simpl. destruct (Z.ltb_spec (rv_pos st) (len content - 4)) as [Hlt|Hge].
    + destruct (rv_turn_progress st Hinv Hlt) as (st' & -> & Hinv' & Hmove).
      apply IH; [assumption|lia].
    + destruct Hinv as (_ & Hk & Hc). exists (rv_strings st).
      repeat split; auto.
      rewrite Hk. f_equal. apply (f_equal (@List.length str)) in Hk.
      now rewrite length_map, counter_keys_length in Hk.
Qed.

Lemma parse_rvdata2_returns :
  exists strings,
    parse_rvdata2 unicode_printable content filename = Some strings
    /\ map key strings = counter_keys (lit "str_") (List.length strings)
    /\ Forall (rv_collected unicode_printable filename) strings.
Proof.
  destruct (rv_loop_returns (List.length content) (mkRv 2 0 [])) as (strings & E & H).
  - unfold rv_invariant; simpl. repeat split; [lia|constructor].
  - simpl. unfold len. lia.
  - exists strings. unfold parse_rvdata2. now rewrite E.
Qed.

End Scan.
End RvFacts.

(** The loop and the relation [rv_scan] agree. *)
Module RvScan.

Lemma rv_loop_scan (unicode_printable : Z -> bool) (content : bytes) (filename : str)
    (fuel : nat) (st : rv_state) (strings : list StringRecord) :
  rv_loop unicode_printable fuel content filename st = Some (Ok strings) ->
  rv_scan unicode_printable content filename st strings.
Proof.
  revert st; induction fuel as [|fuel IH]; intros st; cbn [rv_loop];
    destruct (Z.ltb_spec (rv_pos st) (len content - 4)) as [Hlt|Hge].
  - discriminate.
  - intros E; injection E as <-. now apply rv_scan_leave.
  - destruct (rv_turn unicode_printable content filename st) as [st'|e] eqn:Hturn.
    + intros E. apply (rv_scan_turn _ _ _ st st'); auto.
    + discriminate.
  - intros E; injection E as <-. now apply rv_scan_leave.
Qed.

Lemma rv_scan_functional (unicode_printable : Z -> bool) (content : bytes) (filename : str)
    (st : rv_state) (strings strings' : list StringRecord) :
  rv_scan unicode_printable content filename st strings ->
  rv_scan unicode_printable content filename st strings' ->
  strings' = strings.
Proof.
  intros H; revert strings'.
  induction H as [st Hge|st st1 strings Hlt Hturn _ IH]; intros strings' H'.
  - inversion H' as [st0 Hge'|st0 st2 out Hlt' Hturn' Hrest]; subst; [reflexivity|lia].
  - inversion H' as [st0 Hge'|st0 st2 out Hlt' Hturn' Hrest]; subst; [lia|].
    rewrite Hturn in Hturn'. injection Hturn' as <-. now apply IH.
Qed.

End RvScan.

(** C6, as amended.  One turn of the scan at a cursor inside the loop: a
    byte other than 0x22 moves the cursor by one.  After the tag 0x22, a
    length byte below 128 is the length itself (so are the values 0 to 122),
    and a length byte with its high bit set announces as many bytes as its
    low 7 bits say, which hold the length, least significant byte first.
    The bytes of that length after the header, cut at the end of the
    buffer, are decoded as strict UTF-8: when the decoding fails the cursor
    moves one byte past the header; otherwise it moves past the length, and
    the text is collected under the key [str_] and the counter when it has
    at least 3 characters and is printable.  The whole scan returns, and
    what it returns is the list that such turns leave, and no other: the
    turns start at offset 2 with the counter at 0 and an empty list, each
    starts where the one before left the cursor, and the last one is the
    first to leave the cursor at [len(content) - 4] or beyond.  The
    records are therefore in the order of their tags in the buffer, with
    keys [str_0], [str_1], ... in that order, and only records that passed
    the filter. *)
Theorem rvdata2_scan (unicode_printable : Z -> bool) (content : bytes) (filename : str) :
  well_formed content ->
  (forall pos i strings,
     0 <= pos < len content - 4 ->
     let lb := byte_at content (pos + 1) in
     let header :=
       if lb <? 128 then (lb, pos + 2)
       else (from_bytes_little (slice content (pos + 2) (pos + 2 + Z.land lb 127)),
             pos + 2 + Z.land lb 127) in
     let length := fst header in
     let start := snd header in
     rv_turn unicode_printable content filename (mkRv pos i strings) =
       Ok (if byte_at content pos =? 34 then
             match decode_utf8_strict (slice content start (start + length)) with
             | Ok s =>
                 if (3 <=? len s) && isprintable unicode_printable s
                 then mkRv (start + length) (S i)
                        (strings ++ [mkStringRecord (lit "str_" ++ str_of_nat i) s filename])
                 else mkRv (start + length) i strings
             | Raise _ => mkRv (start + 1) i strings
             end
           else mkRv (pos + 1) i strings))
  /\ (exists strings,
        parse_rvdata2 unicode_printable content filename = Some strings
        /\ rv_scan unicode_printable content filename (mkRv 2 0 []) strings
        /\ (forall strings',
              rv_scan unicode_printable content filename (mkRv 2 0 []) strings' ->
              strings' = strings)
        /\ map key strings = counter_keys (lit "str_") (List.length strings)
        /\ Forall (fun r => 3 <= len (original r)
                            /\ isprintable unicode_printable (original r) = true
                            /\ file r = filename) strings).
Proof.
  intros Hwf. split.
  - intros pos i strings Hpos lb header length start.
    unfold rv_turn. cbn [rv_pos rv_i rv_strings].
    rewrite RvFacts.getitem_inside by lia.
    destruct (byte_at content pos =? 34); [|reflexivity].
    rewrite RvFacts.getitem_inside by lia. fold lb.
    rewrite (RvFacts.rv_length_spec content lb (pos + 1 + 1))
      by (apply RvFacts.byte_at_range; [assumption|lia]).
    replace (pos + 1 + 1) with (pos + 2) by lia.
    fold header. rewrite (surjective_pairing header). fold length start.
    unfold rv_string.
    destruct (decode_utf8_strict _) as [s|e]; [|reflexivity].
    replace (2 <? len s) with (3 <=? len s); [reflexivity|].
    destruct (Z.leb_spec 3 (len s)), (Z.ltb_spec 2 (len s)); auto; lia.
  - destruct (RvFacts.rv_loop_returns unicode_printable content filename Hwf
                (List.length content) (mkRv 2 0 [])) as (strings & E & K & C).
    + unfold rv_invariant; simpl. repeat split; [lia|constructor].
    + simpl. unfold len. lia.
    + pose proof (RvScan.rv_loop_scan _ _ _ _ _ _ E) as Hscan.
      exists strings. split; [unfold parse_rvdata2; now rewrite E|].
      split; [exact Hscan|]. split; [|split; assumption].
      intros strings' H'. exact (RvScan.rv_scan_functional _ _ _ _ _ _ Hscan H').
Qed.

(** A string object that announces more bytes than the buffer holds is not
    skipped: the bytes that are left are collected, and the cursor leaves
    the buffer. *)
Lemma overlong_string_is_collected :
  byte_at Fixtures.rvdata2_overlong 2 = 34
  /\ byte_at Fixtures.rvdata2_overlong 3 = 100
  /\ len Fixtures.rvdata2_overlong = 14
  /\ rv_turn Fixtures.ascii_only Fixtures.rvdata2_overlong (lit "Map001.rvdata2")
       (mkRv 2 0 []) =
       Ok (mkRv 104 1 [mkStringRecord (lit "str_0") (lit "HelloWorld")
                         (lit "Map001.rvdata2")])
  /\ parse_rvdata2 Fixtures.ascii_only Fixtures.rvdata2_overlong (lit "Map001.rvdata2") =
       Some [mkStringRecord (lit "str_0") (lit "HelloWorld") (lit "Map001.rvdata2")].
Proof. repeat split; vm_compute; reflexivity. Qed.

Lemma rvdata2_scan_witness :
  well_formed Fixtures.rvdata2_two
  /\ 0 <= 2 < len Fixtures.rvdata2_two - 4
  /\ rv_turn Fixtures.ascii_only Fixtures.rvdata2_two (lit "Map001.rvdata2") (mkRv 2 0 []) =
       Ok (mkRv 9 1 [mkStringRecord (lit "str_0") (lit "Hello") (lit "Map001.rvdata2")])
  /\ parse_rvdata2 Fixtures.ascii_only Fixtures.rvdata2_two (lit "Map001.rvdata2") =
       Some [mkStringRecord (lit "str_0") (lit "Hello") (lit "Map001.rvdata2");
             mkStringRecord (lit "str_1") (lit "abc") (lit "Map001.rvdata2")]
  /\ rv_scan Fixtures.ascii_only Fixtures.rvdata2_two (lit "Map001.rvdata2") (mkRv 2 0 [])
       [mkStringRecord (lit "str_0") (lit "Hello") (lit "Map001.rvdata2");
        mkStringRecord (lit "str_1") (lit "abc") (lit "Map001.rvdata2")].
Proof.
  assert (Hwf : well_formed Fixtures.rvdata2_two) by reflexivity.
  assert (Hpos : 0 <= 2 < len Fixtures.rvdata2_two - 4) by (vm_compute; split; congruence).
  assert (Hrun : parse_rvdata2 Fixtures.ascii_only Fixtures.rvdata2_two (lit "Map001.rvdata2") =
            Some [mkStringRecord (lit "str_0") (lit "Hello") (lit "Map001.rvdata2");
                  mkStringRecord (lit "str_1") (lit "abc") (lit "Map001.rvdata2")])
    by (vm_compute; reflexivity).
  split; [exact Hwf|]. split; [exact Hpos|].
  destruct (rvdata2_scan Fixtures.ascii_only Fixtures.rvdata2_two
              (lit "Map001.rvdata2") Hwf) as (Hturn & strings & E & Hscan & _).
  split; [exact (Hturn 2 0%nat [] Hpos)|]. split; [exact Hrun|].
  rewrite Hrun in E. injection E as <-. exact Hscan.
Defined.

(** ** Keys *)

(** C3, as amended.  The keys of the heuristic scanner and of the scan of a
    [.rvdata2] stream are counters, and pairwise distinct in every result.
    (The keys of the other codecs are names read from the file.) *)
Theorem counter_keys_are_distinct
    (unicode_printable : Z -> bool) (content : bytes) (filename : str) :
  well_formed content ->
  NoDup (map key (extract_strings_from_binary content filename))
  /\ (exists strings,
        parse_rvdata2 unicode_printable content filename = Some strings
        /\ NoDup (map key strings)).
Proof.
  intros Hwf. split.
  - unfold extract_strings_from_binary. rewrite <- firstn_map.
    apply NoDup_firstn. rewrite (ScannerFacts.run_counted filename content).
    apply counter_keys_NoDup.
  - destruct (RvFacts.parse_rvdata2_returns unicode_printable content filename Hwf)
      as (strings & E & K & _).
    exists strings. split; [assumption|]. rewrite K. apply counter_keys_NoDup.
Qed.

(** Two lines of a textual asset with the same field name give two records
    with the same key. *)
Lemma repeated_field_repeats_key :
  map key (parse_unity_yaml_fallback Fixtures.yaml_repeated (lit "level.asset")) =
    [lit "name"; lit "name"]
  /\ ~ NoDup (map key (parse_unity_yaml_fallback Fixtures.yaml_repeated (lit "level.asset"))).
Proof.
  assert (E : map key (parse_unity_yaml_fallback Fixtures.yaml_repeated (lit "level.asset"))
              = [lit "name"; lit "name"]) by (vm_compute; reflexivity).
  split; [exact E|]. rewrite E. intros H.
  inversion H as [|x l Hin _]; subst. apply Hin. now left.
Qed.

(** So does a table that holds a key twice. *)
Lemma repeated_table_key_repeats_key :
  map key (parse_locres Fixtures.locres_twice (lit "game.locres")) =
    [lit "NS.greeting"; lit "NS.greeting"].
Proof. vm_compute. reflexivity. Qed.

Lemma counter_keys_are_distinct_witness :
  well_formed Fixtures.rvdata2_two
  /\ NoDup (map key (extract_strings_from_binary Fixtures.rvdata2_two (lit "Map001.rvdata2"))).
Proof.
  assert (Hwf : well_formed Fixtures.rvdata2_two) by reflexivity.
  split; [exact Hwf|].
  exact (proj1 (counter_keys_are_distinct Fixtures.ascii_only Fixtures.rvdata2_two
                  (lit "Map001.rvdata2") Hwf)).
Defined.

(** ** Dispatch *)

Lemma startswith_same_length (a b : str) :
  List.length a = List.length b -> startswith a b = true -> a = b.
Proof.
  revert b; induction a as [|x a IH]; intros [|y b]; simpl; try discriminate; auto.
  intros Hl H. apply andb_prop in H as [Hxy Hab].
  apply Z.eqb_eq in Hxy. subst y. f_equal. apply IH; auto.
Qed.

Lemma startswith_refl (a : str) : startswith a a = true.
Proof. induction a; simpl; auto. now rewrite Z.eqb_refl. Qed.

Lemma str_eqb_spec (a b : str) : str_eqb a b = true <-> a = b.
Proof.
  unfold str_eqb. split.
  - intros H. apply andb_prop in H as [Hl Hs]. apply Z.eqb_eq in Hl.
    apply startswith_same_length; auto. unfold len in Hl. lia.
  - intros ->. now rewrite Z.eqb_refl, startswith_refl.
Qed.

Lemma str_eqb_not_in (engine : str) (names : list str) (name : str) :
  ~ In engine names -> In name names -> str_eqb engine name = false.
Proof.
  intros Hno Hin. destruct (str_eqb engine name) eqn:E; [|reflexivity].
  apply str_eqb_spec in E. subst. contradiction.
Qed.

(** C8.  When the engine hint is none of the names of the dispatch and the
    lowered file name has none of its extensions, no codec runs on the
    content, the heuristic scanner included, and [POST /parse] fails.  The
    dispatch raises the error for a format that is not supported, with
    status 400, inside the [try] of the endpoint, whose [except Exception]
    catches it: what the caller receives is the error of status 500 that
    the endpoint raises for any failure of a parser, with the error of
    status 400 only as the cause in its detail. *)
Theorem unknown_format_is_refused
    (unicode_printable : Z -> bool) (lower : str -> str)
    (unitypy_parse : option (bytes -> str -> result (list StringRecord)))
    (content : bytes) (file_filename engine : str) :
  ~ In engine known_engines ->
  (forall ext, In ext known_extensions -> endswith (lower file_filename) ext = false) ->
  parse_file unicode_printable lower unitypy_parse content file_filename engine =
    Some (Raise (HTTPException 500 (ErroreParsing
            (HTTPException 400 (FormatoNonSupportato (lower file_filename)))))).
Proof.
  intros Hengine Hext. unfold parse_file, parse_dispatch, Pck.endswith_any.
  cbn [existsb].
  rewrite !(str_eqb_not_in engine known_engines) by (auto; simpl; tauto).
  rewrite !Hext by (simpl; tauto).
  reflexivity.
Qed.

Lemma unknown_format_is_refused_witness :
  parse_file (fun _ => false) (fun s => s) None (lit "some readable text in a file")
    (lit "notes.txt") (lit "renpy") =
    Some (Raise (HTTPException 500 (ErroreParsing
            (HTTPException 400 (FormatoNonSupportato (lit "notes.txt")))))).
Proof.
  apply (unknown_format_is_refused (fun _ => false) (fun s => s) None).
  - intros H. repeat (destruct H as [H|H]; [discriminate H|]). exact H.
  - intros ext H. repeat (destruct H as [<-|H]; [reflexivity|]). destruct H.
Defined.

(** ** Catalog lines of a Godot archive *)

Module PckFacts.
Import Cursor Pck Fixtures.

Lemma utf8_scan_ascii (s : bytes) :
  Forall (fun b => b < 128) s -> utf8_scan s = map Some s.
Proof.
  induction 1 as [|b s Hb _ IH]; [reflexivity|].
  cbn [utf8_scan map]. destruct (Z.ltb_spec b 128); [|lia]. now rewrite IH.
Qed.

Lemma decode_utf8_replace_ascii (s : bytes) :
  Forall (fun b => b < 128) s -> decode_utf8_replace s = s.
Proof.
  intros H. unfold decode_utf8_replace, replace_errors.
  rewrite utf8_scan_ascii by assumption.
  rewrite map_map. apply map_id.
Qed.

Lemma slice_in_prefix {A} (prefix tail : list A) (lo hi : Z) :
  0 <= lo <= hi -> hi <= len prefix ->
  slice (prefix ++ tail) lo hi = slice prefix lo hi.
Proof.
  intros Hlo Hhi. rewrite !slice_from by assumption.
  unfold len in Hhi.
  rewrite skipn_app.
  replace (Z.to_nat lo - List.length prefix)%nat with 0%nat by lia.
  rewrite skipn_O, firstn_app.
  replace (Z.to_nat (hi - lo) - List.length (skipn (Z.to_nat lo) prefix))%nat
    with 0%nat by (rewrite length_skipn; lia).
  now rewrite firstn_O, app_nil_r.
Qed.

Lemma unpack_unsigned_in_prefix (size : Z) (prefix tail : bytes) (pos : Z) :
  0 <= pos -> 0 <= size -> pos + size <= len prefix ->
  unpack_unsigned size (prefix ++ tail) pos = unpack_unsigned size prefix pos.
Proof.
  intros Hpos Hsize Hin. unfold unpack_unsigned.
  rewrite slice_in_prefix by lia.
  pose proof (len_nonneg tail). rewrite len_app.
  destruct (Z.leb_spec (pos + size) (len prefix + len tail)),
           (Z.leb_spec (pos + size) (len prefix)); try lia. reflexivity.
Qed.

Lemma le_bytes_length (n : nat) (v : Z) : List.length (le_bytes n v) = n.
Proof. revert v; induction n; intros v; simpl; auto. Qed.

Lemma from_bytes_little_le_bytes (n : nat) (v : Z) :
  0 <= v < 256 ^ Z.of_nat n -> from_bytes_little (le_bytes n v) = v.
Proof.
  revert v; induction n as [|n IH]; intros v Hv.
  - simpl in *. lia.
  - cbn [le_bytes from_bytes_little].
    rewrite Nat2Z.inj_succ, Z.pow_succ_r in Hv by lia.
    rewrite IH.
    + pose proof (Z.div_mod v 256 ltac:(lia)). lia.
    + split; [apply Z.div_pos; lia|].
      apply Z.div_lt_upper_bound; lia.
Qed.

Lemma split_no_separator (sep : Z) (l : str) :
  forallb (fun c => negb (c =? sep)) l = true -> split sep l = [l].
Proof.
  induction l as [|c l IH]; [reflexivity|].
  cbn [forallb split]. intros H. apply andb_prop in H as [Hc Hl].
  apply negb_true_iff in Hc. rewrite Hc, (IH Hl). reflexivity.
Qed.

Lemma split_line_then (sep : Z) (l rest : str) :
  forallb (fun c => negb (c =? sep)) l = true ->
  split sep (l ++ sep :: rest) = l :: split sep rest.
Proof.
  induction l as [|c l IH]; cbn [forallb app split]; intros H.
  - now rewrite Z.eqb_refl.
  - apply andb_prop in H as [Hc Hl]. apply negb_true_iff in Hc.
    now rewrite Hc, (IH Hl).
Qed.

Lemma split_join_lines (lines : list str) :
  lines <> [] ->
  forallb (forallb (fun c => negb (c =? 10))) lines = true ->
  split 10 (join_lines lines) = lines.
Proof.
  induction lines as [|l ls IH]; [congruence|].
  intros _ H. cbn [forallb] in H. apply andb_prop in H as [Hl Hls].
  destruct ls as [|l' ls'].
  - simpl. now apply split_no_separator.
  - change (join_lines (l :: l' :: ls')) with (l ++ 10 :: join_lines (l' :: ls')).
    rewrite split_line_then by assumption.
    f_equal. apply IH; [discriminate|assumption].
Qed.

Lemma is_line_char_spec (c : Z) :
  is_line_char c = true -> 0 <= c < 128 /\ negb (c =? 10) = true.
Proof. unfold is_line_char. lia. Qed.

Lemma ascii_lines_no_newline (lines : list str) :
  ascii_lines lines -> forallb (forallb (fun c => negb (c =? 10))) lines = true.
Proof.
  unfold ascii_lines. rewrite !forallb_forall. intros H l Hl.
  specialize (H l Hl). rewrite forallb_forall in *. intros c Hc.
  now apply is_line_char_spec, H.
Qed.

Lemma join_lines_ascii (lines : list str) :
  ascii_lines lines -> Forall (fun b => b < 128) (join_lines lines).
Proof.
  unfold ascii_lines. induction lines as [|l ls IH]; [constructor|].
  cbn [forallb]. intros H. apply andb_prop in H as [Hl Hls].
  assert (Fl : Forall (fun b => b < 128) l).
  { apply Forall_forall. intros c Hc. rewrite forallb_forall in Hl.
    apply is_line_char_spec, Hl, Hc. }
  destruct ls as [|l' ls']; [exact Fl|].
  change (join_lines (l :: l' :: ls')) with (l ++ 10 :: join_lines (l' :: ls')).
  apply Forall_app; split; [exact Fl|]. constructor; [lia|]. now apply IH.
Qed.

Lemma enumerate_from_app {A} (i : nat) (a b : list A) :
  enumerate_from i (a ++ b) = enumerate_from i a ++ enumerate_from (i + List.length a) b.
Proof.
  revert i; induction a as [|x a IH]; intros i; simpl.
  - now rewrite Nat.add_0_r.
  - rewrite IH. now rewrite Nat.add_succ_r.
Qed.

End PckFacts.

Module PckWalk.
Import Cursor Pck Fixtures PckFacts.

Lemma archive_layout (text : bytes) :
  pck_archive (lit "strings.po") text
  = strings_po_directory ++ le_bytes 8 (len text) ++ repeat 0 16 ++ text.
Proof. unfold pck_archive, strings_po_directory. now rewrite <- !app_assoc. Qed.

(** A read of an integer that lies inside the directory. *)
Ltac read_in_directory HP :=
  match goal with
  | |- context [unpack_unsigned ?size (strings_po_directory ++ ?tail) ?pos] =>
      rewrite (unpack_unsigned_in_prefix size strings_po_directory tail pos)
        by (rewrite ?HP; lia);
      let v := eval vm_compute in (unpack_unsigned size strings_po_directory pos) in
      change (unpack_unsigned size strings_po_directory pos) with v;
      cbv beta iota
  end.

Lemma walk_archive (text : bytes) :
  len text < 2 ^ 64 ->
  walk (pck_archive (lit "strings.po") text)
  = Ok (file_records (lit "strings.po") text).
Proof.
  intros Hsize. rewrite archive_layout.
  assert (HP : len strings_po_directory = 110) by reflexivity.
  unfold walk, bind, read_I, read_Q, read_with, advance, unpack_I, unpack_Q.
  do 5 read_in_directory HP.
  change (Z.to_nat 1) with 1%nat. cbn [read_entries].
  unfold bind, read_I, read_Q, read_with, read_text, advance, unpack_I, unpack_Q.
  read_in_directory HP.
  rewrite (slice_in_prefix strings_po_directory) by (rewrite ?HP; lia).
  match goal with
  | |- context [rstrip_chars ?c (decode_utf8_replace (slice strings_po_directory ?a ?b))] =>
      let v := eval vm_compute in
                 (rstrip_chars c (decode_utf8_replace (slice strings_po_directory a b))) in
      change (rstrip_chars c (decode_utf8_replace (slice strings_po_directory a b))) with v
  end.
  read_in_directory HP.
  match goal with
  | |- context [unpack_unsigned 8 _ ?pos] =>
      replace pos with (len strings_po_directory) by (rewrite HP; reflexivity)
  end.
  rewrite LocresFacts.unpack_unsigned_at by (unfold len; now rewrite le_bytes_length).
  rewrite from_bytes_little_le_bytes
    by (change (256 ^ Z.of_nat 8) with (2 ^ 64); pose proof (len_nonneg text); lia).
  cbv beta iota. unfold ret.
  match goal with
  | |- context [endswith_any ?p ?l] => change (endswith_any p l) with true
  end.
  cbv iota.
  replace (strings_po_directory ++ le_bytes 8 (len text) ++ repeat 0 16 ++ text)
    with ((strings_po_directory ++ le_bytes 8 (len text) ++ repeat 0 16) ++ text)
    by (now rewrite <- !app_assoc).
  replace 134 with (len (strings_po_directory ++ le_bytes 8 (len text) ++ repeat 0 16))
    by (rewrite !len_app, HP; unfold len; rewrite le_bytes_length; reflexivity).
  rewrite slice_after by apply len_nonneg.
  unfold len. rewrite Nat2Z.id, firstn_all. reflexivity.
Qed.

Lemma parse_archive (text : bytes) (filename : str) :
  len text < 2 ^ 64 ->
  parse_godot_pck (pck_archive (lit "strings.po") text) filename
  = file_records (lit "strings.po") text.
Proof.
  intros Hsize. unfold parse_godot_pck.
  rewrite walk_archive by assumption.
  rewrite archive_layout.
  assert (HP : len strings_po_directory = 110) by reflexivity.
  rewrite (slice_in_prefix strings_po_directory) by (rewrite ?HP; lia).
  reflexivity.
Qed.

Lemma line_records_file (path : str) (numbered : nat * str) (r : StringRecord) :
  In r (line_records path numbered) -> file r = path.
Proof.
  destruct numbered as [i line]. unfold line_records.
  destruct (startswith line msgid_prefix && (9 <? len line)); simpl.
  - intros [<-|[]]. reflexivity.
  - intros [].
Qed.

End PckWalk.

(** C7, as amended.  For an archive whose one inner file [strings.po] is a
    text of ASCII lines, one of which is [msgid], a space and [Hello]
    between double quotes: the directory is walked, the file is decoded from
    its offset and size, and the records are those of its lines, one for each
    line of more than 9 characters that starts with [msgid], a space and a
    double quote.  The record of that line has the key [pck_strings.po_]
    followed by the index of the line, the text [Hello], and the inner path
    as its file, as every record has. *)
Theorem pck_msgid_record (above below : list str) (filename : str) :
  let lines := above ++ Fixtures.msgid_line (lit "Hello") :: below in
  let archive := Fixtures.pck_archive (lit "strings.po") (Fixtures.join_lines lines) in
  ascii_lines above -> ascii_lines below ->
  len (Fixtures.join_lines lines) < 2 ^ 64 ->
  parse_godot_pck archive filename =
    flat_map (Pck.line_records (lit "strings.po")) (enumerate lines)
  /\ In (mkStringRecord (lit "pck_strings.po_" ++ str_of_nat (List.length above))
           (lit "Hello") (lit "strings.po"))
        (parse_godot_pck archive filename)
  /\ Forall (fun r => file r = lit "strings.po") (parse_godot_pck archive filename).
Proof.
  intros lines archive Habove Hbelow Hsize.
  assert (Hlines : ascii_lines lines).
  { unfold ascii_lines in *. unfold lines. rewrite forallb_app.
    apply andb_true_intro. split; [exact Habove|].
    apply andb_true_intro. split; [reflexivity|exact Hbelow]. }
  assert (E : parse_godot_pck archive filename =
              flat_map (Pck.line_records (lit "strings.po")) (enumerate lines)).
  { unfold archive. rewrite PckWalk.parse_archive by assumption.
    unfold Pck.file_records.
    rewrite PckFacts.decode_utf8_replace_ascii by now apply PckFacts.join_lines_ascii.
    rewrite PckFacts.split_join_lines; [reflexivity| |].
    - unfold lines. destruct above; discriminate.
    - now apply PckFacts.ascii_lines_no_newline. }
  rewrite E. split; [reflexivity|]. split.
  - apply in_flat_map.
    exists (List.length above, Fixtures.msgid_line (lit "Hello")). split.
    + unfold enumerate, lines. rewrite PckFacts.enumerate_from_app.
      apply in_or_app. right. now left.
    + now left.
  - apply Forall_forall. intros r Hr. apply in_flat_map in Hr as (numbered & _ & Hr).
    now apply PckWalk.line_records_file in Hr.
Qed.

(** The record of the scenario: its key starts with [pck_]. *)
Lemma msgid_key_starts_with_pck :
  parse_godot_pck Fixtures.hello_archive (lit "game.pck")
  = [mkStringRecord (lit "pck_strings.po_0") (lit "Hello") (lit "strings.po")]
  /\ lit "pck_strings.po_0" <> lit "archive_strings.po_0".
Proof. split; [vm_compute; reflexivity|discriminate]. Qed.

Lemma pck_msgid_record_witness :
  ascii_lines Fixtures.catalog_above /\ ascii_lines Fixtures.catalog_below
  /\ In (mkStringRecord (lit "pck_strings.po_2") (lit "Hello") (lit "strings.po"))
        (parse_godot_pck
           (Fixtures.pck_archive (lit "strings.po")
              (Fixtures.join_lines
                 (Fixtures.catalog_above
                  ++ Fixtures.msgid_line (lit "Hello") :: Fixtures.catalog_below)))
           (lit "game.pck")).
Proof.
  assert (Ha : ascii_lines Fixtures.catalog_above) by reflexivity.
  assert (Hb : ascii_lines Fixtures.catalog_below) by reflexivity.
  assert (Hs : len (Fixtures.join_lines
                      (Fixtures.catalog_above
                       ++ Fixtures.msgid_line (lit "Hello") :: Fixtures.catalog_below))
               < 2 ^ 64) by (vm_compute; reflexivity).
  split; [exact Ha|]. split; [exact Hb|].
  exact (proj1 (proj2 (pck_msgid_record Fixtures.catalog_above Fixtures.catalog_below
                         (lit "game.pck") Ha Hb Hs))).
Defined.

(** * Further properties of the code *)

(** ** The patch endpoint *)

Module PatchFacts.

Lemma encode_utf8_outcome (s : str) :
  (existsb is_surrogate s = false /\ exists b, encode_utf8 s = Ok b)
  \/ (existsb is_surrogate s = true /\ encode_utf8 s = Raise UnicodeEncodeError).
Proof.
  induction s as [|c s IH]; [left; split; [reflexivity|now exists []]|].
  cbn [existsb encode_utf8]. destruct (is_surrogate c); cbn [orb].
  - right. split; reflexivity.
  - destruct IH as [[Hno [b ->]]|[Hyes ->]].
    + left. split; [assumption|]. eexists; reflexivity.
    + right. split; [assumption|reflexivity].
Qed.

Lemma patch_locres_items_outcome (data : bytes) (translations : dict) :
  patch_locres_items data translations =
    if keys_encodable translations then Ok data else Raise UnicodeEncodeError.
Proof.
  induction translations as [|[key translation] rest IH]; [reflexivity|].
  cbn [patch_locres_items keys_encodable forallb fst].
  fold (key_segment key). fold (keys_encodable rest).
  destruct (encode_utf8_outcome (key_segment key)) as [[-> [b ->]]|[-> ->]]; cbn [negb andb].
  - destruct (0 <=? find data (b ++ [0])); exact IH.
  - reflexivity.
Qed.

Lemma patch_rvdata2_items_outcome (int_accepts : str -> bool)
    (data : bytes) (translations : dict) :
  patch_rvdata2_items int_accepts data translations =
    if existsb (stops_rvdata2_patch int_accepts) translations
    then Raise AttributeError else Ok data.
Proof.
  induction translations as [|[name translation] rest IH]; [reflexivity|].
  cbn [patch_rvdata2_items existsb]. unfold stops_rvdata2_patch at 1. cbn [fst snd].
  destruct (startswith name (lit "str_")); cbn [andb orb]; [|exact IH].
  destruct (int_accepts (slice name 4 (len name))); cbn [andb orb]; [|exact IH].
  destruct translation as [s|]; cbn [encode_value is_string negb orb]; [|reflexivity].
  destruct (encode_utf8_outcome s) as [[_ [b ->]]|[_ ->]]; exact IH.
Qed.

Lemma strings_never_stop (int_accepts : str -> bool) (translations : dict) :
  forallb (fun item => is_string (snd item)) translations = true ->
  existsb (stops_rvdata2_patch int_accepts) translations = false.
Proof.
  induction translations as [|[name translation] rest IH]; [reflexivity|].
  cbn [forallb existsb snd]. intros H. apply andb_prop in H as [Hs Hrest].
  rewrite (IH Hrest). unfold stops_rvdata2_patch. cbn [snd]. rewrite Hs.
  cbn [negb]. now rewrite andb_false_r.
Qed.

End PatchFacts.

(** X1.  [patch_locres] has two outcomes only.  When no key segment (the key
    after its last dot) holds a surrogate code point it writes the content it
    was given, byte for byte, whatever the keys and the translations are;
    otherwise encoding the segment raises [UnicodeEncodeError] and nothing is
    written. *)
Theorem patch_locres_outcome (content : bytes) (translations : dict) (language : str) :
  patch_locres content translations language =
    if keys_encodable translations then Ok content else Raise UnicodeEncodeError.
Proof. apply PatchFacts.patch_locres_items_outcome. Qed.

(** X2.  [patch_rvdata2] has two outcomes only.  It stops with
    [AttributeError] exactly when some item of the map has a key made of
    [str_] and something [int] accepts, and a value that is not a string,
    such as a number; the endpoint then answers with its error of status
    500 for engine [rpgmaker_xp].  Otherwise it hands the content it was
    given to the output file, byte for byte: a key that [int] refuses and
    a translation that UTF-8 cannot encode are both passed over, so a map
    whose values are all strings never stops it. *)
Theorem patch_rvdata2_outcome
    (unitypy_patch : option (bytes -> dict -> result bytes))
    (int_accepts : str -> bool)
    (content : bytes) (language : str) (translations : dict) :
  patch_rvdata2 int_accepts content translations language =
    (if existsb (stops_rvdata2_patch int_accepts) translations
     then Raise AttributeError else Ok content)
  /\ (existsb (stops_rvdata2_patch int_accepts) translations = true ->
      generate_patch unitypy_patch int_accepts content (lit "rpgmaker_xp") language
        translations =
        Raise (HTTPException 500 (ErroreGenerazionePatch AttributeError)))
  /\ (forallb (fun item => is_string (snd item)) translations = true ->
      patch_rvdata2 int_accepts content translations language = Ok content).
Proof.
  unfold generate_patch, patch_dispatch, patch_rvdata2.
  rewrite PatchFacts.patch_rvdata2_items_outcome.
  split; [reflexivity|]. split.
  - intros ->. reflexivity.
  - intros H. now rewrite (PatchFacts.strings_never_stop int_accepts translations H).
Qed.

Lemma patch_rvdata2_outcome_witness :
  existsb (stops_rvdata2_patch Fixtures.digits_only) number_for_str_0 = true
  /\ generate_patch None Fixtures.digits_only Fixtures.rvdata2_two (lit "rpgmaker_xp")
       (lit "it") number_for_str_0 =
       Raise (HTTPException 500 (ErroreGenerazionePatch AttributeError))
  /\ forallb (fun item => is_string (snd item)) surrogate_for_str_0 = true
  /\ encode_value (JString [55296]) = Raise UnicodeEncodeError
  /\ patch_rvdata2 Fixtures.digits_only Fixtures.rvdata2_two surrogate_for_str_0 (lit "it") =
       Ok Fixtures.rvdata2_two.
Proof.
  assert (Hstop : existsb (stops_rvdata2_patch Fixtures.digits_only) number_for_str_0 = true)
    by reflexivity.
  assert (Hstr : forallb (fun item => is_string (snd item)) surrogate_for_str_0 = true)
    by reflexivity.
  split; [exact Hstop|]. split.
  - exact (proj1 (proj2 (patch_rvdata2_outcome None Fixtures.digits_only
                           Fixtures.rvdata2_two (lit "it") number_for_str_0)) Hstop).
  - split; [exact Hstr|]. split; [reflexivity|].
    exact (proj2 (proj2 (patch_rvdata2_outcome None Fixtures.digits_only
                           Fixtures.rvdata2_two (lit "it") surrogate_for_str_0)) Hstr).
Defined.

(** X3.  For an engine that is none of [unity], [unreal] and [rpgmaker_xp]
    the patch endpoint fails: the error of status 400 for an engine without
    patch, inside the error of status 500 of the handler. *)
Theorem patch_engine_is_refused
    (unitypy_patch : option (bytes -> dict -> result bytes))
    (int_accepts : str -> bool)
    (content : bytes) (engine language : str) (translations : dict) :
  ~ In engine patch_engines ->
  generate_patch unitypy_patch int_accepts content engine language translations =
    Raise (HTTPException 500 (ErroreGenerazionePatch
             (HTTPException 400 (PatchNonSupportata engine)))).
Proof.
  intros Hno. unfold generate_patch, patch_dispatch.
  rewrite !(str_eqb_not_in engine patch_engines) by (auto; simpl; tauto).
  reflexivity.
Qed.

Lemma patch_engine_is_refused_witness :
  generate_patch None Fixtures.digits_only Fixtures.hello_archive (lit "renpy") (lit "it")
    Fixtures.buongiorno =
    Raise (HTTPException 500 (ErroreGenerazionePatch
             (HTTPException 400 (PatchNonSupportata (lit "renpy"))))).
Proof.
  apply (patch_engine_is_refused None Fixtures.digits_only).
  intros H. repeat (destruct H as [H|H]; [discriminate H|]). exact H.
Defined.

(** X4.  Without UnityPy no patch changes a byte: whatever the engine and
    the translations, a file that the patch endpoint sends back is the
    content that was uploaded. *)
Theorem patch_without_unitypy_keeps_bytes
    (int_accepts : str -> bool)
    (content : bytes) (engine language : str) (translations : dict) (out : bytes) :
  generate_patch None int_accepts content engine language translations = Ok out ->
  out = content.
Proof.
  unfold generate_patch, patch_dispatch, patch_unity, patch_rvdata2.
  destruct (str_eqb engine (lit "unity")).
  { intros H; now injection H. }
  destruct (str_eqb engine (lit "unreal")).
  { unfold patch_locres. rewrite PatchFacts.patch_locres_items_outcome.
    destruct (keys_encodable translations);
      [intros H; now injection H|discriminate]. }
  destruct (str_eqb engine (lit "rpgmaker_xp")); [|discriminate].
  rewrite PatchFacts.patch_rvdata2_items_outcome.
  destruct (existsb _ translations); [discriminate|intros H; now injection H].
Qed.

Lemma patch_without_unitypy_keeps_bytes_witness :
  exists out,
    generate_patch None Fixtures.digits_only Fixtures.locres_hi (lit "unreal") (lit "it")
      Fixtures.buongiorno
    = Ok out
    /\ out = Fixtures.locres_hi.
Proof.
  assert (H : generate_patch None Fixtures.digits_only Fixtures.locres_hi (lit "unreal")
                (lit "it") Fixtures.buongiorno = Ok Fixtures.locres_hi)
    by (vm_compute; reflexivity).
  exists Fixtures.locres_hi. split; [exact H|].
  exact (patch_without_unitypy_keeps_bytes _ _ _ _ _ _ H).
Defined.

(** A key whose segment is a lone surrogate, as [json.loads] makes of an
    escape, stops the patch. *)
Lemma patch_locres_surrogate_key :
  patch_locres Fixtures.locres_hi surrogate_key (lit "it") = Raise UnicodeEncodeError.
Proof. vm_compute. reflexivity. Qed.

(** ** More on the heuristic scanner *)

Module StripFacts.

Lemma dropwhile_Forall (P : Z -> Prop) (p : Z -> bool) (s : str) :
  Forall P s -> Forall P (dropwhile p s).
Proof.
  induction 1 as [|c s Hc Hs IH]; cbn [dropwhile]; [constructor|].
  destruct (p c); [exact IH|now constructor].
Qed.

Lemma dropwhile_head (p : Z -> bool) (s : str) (d : Z) :
  dropwhile p s <> [] -> p (hd d (dropwhile p s)) = false.
Proof.
  induction s as [|c s IH]; cbn [dropwhile]; [congruence|].
  destruct (p c) eqn:E; [exact IH|]. intros _. exact E.
Qed.

Lemma dropwhile_suffix (p : Z -> bool) (s : str) :
  exists pre, s = pre ++ dropwhile p s.
Proof.
  induction s as [|c s [pre IH]]; cbn [dropwhile]; [now exists []|].
  destruct (p c).
  - exists (c :: pre). simpl. now rewrite <- IH.
  - now exists [].
Qed.

Lemma dropwhile_none (p : Z -> bool) (s : str) :
  Forall (fun c => p c = false) s -> dropwhile p s = s.
Proof. intros H. destruct H as [|c s Hc _]; cbn [dropwhile]; [reflexivity|now rewrite Hc]. Qed.

Lemma last_of_suffix {A} (pre r : list A) (d : A) :
  r <> [] -> last (pre ++ r) d = last r d.
Proof.
  intros Hr. induction pre as [|x pre IH]; [reflexivity|].
  cbn [app]. destruct (pre ++ r) eqn:E.
  - apply app_eq_nil in E as [_ ->]. congruence.
  - cbn [last]. exact IH.
Qed.

Lemma last_rev {A} (l : list A) (d : A) : last (rev l) d = hd d l.
Proof. destruct l as [|x l]; [reflexivity|]. cbn [rev hd]. apply last_last. Qed.

Lemma strip_by_Forall (P : Z -> Prop) (p : Z -> bool) (s : str) :
  Forall P s -> Forall P (strip_by p s).
Proof.
  intros H. unfold strip_by, lstrip_by, rstrip_by.
  apply dropwhile_Forall, Forall_rev, dropwhile_Forall, Forall_rev, H.
Qed.

(** What is left of a string after stripping neither starts nor ends with
    a stripped character. *)
Lemma strip_by_ends (p : Z -> bool) (s : str) (d : Z) :
  strip_by p s <> [] ->
  p (hd d (strip_by p s)) = false /\ p (last (strip_by p s) d) = false.
Proof.
  unfold strip_by, lstrip_by, rstrip_by. intros Hne.
  split; [now apply dropwhile_head|].
  destruct (dropwhile_suffix p (rev (dropwhile p (rev s)))) as [pre E].
  rewrite <- (last_of_suffix pre _ d Hne), <- E, last_rev.
  apply dropwhile_head. intros Hnil. rewrite Hnil in Hne. now apply Hne.
Qed.

End StripFacts.

Module ScannerMore.
Import Scanner.

Lemma run_records_ok filename n run :
  text_run run -> Forall (scanner_record filename) (run_records filename n run).
Proof.
  intros Hrun. unfold run_records.
  destruct (8 <=? len run); cbn [andb]; [|constructor].
  destruct (keeps (strip run)) eqn:K; constructor; [|constructor].
  unfold keeps in K. apply andb_prop in K as [K Hbang].
  apply andb_prop in K as [Hne Hslash].
  apply negb_true_iff in Hne, Hslash, Hbang. apply Z.eqb_neq in Hne.
  assert (Hnil : strip run <> []) by (intros E; rewrite E in Hne; now apply Hne).
  destruct (StripFacts.strip_by_ends isspace run 0 Hnil) as [Hhd Hlast].
  unfold scanner_record; cbn [file original].
  repeat split; auto.
  - pose proof (len_nonneg (strip run)). lia.
  - now apply StripFacts.strip_by_Forall.
Qed.

Lemma step_sound filename n st b :
  scanner_sound filename n st -> scanner_sound filename (n + 1) (step filename st b).
Proof.
  intros (Hcur & Hrec & Hn). destruct (is_text_byte b) eqn:Hb.
  - unfold step. rewrite Hb. unfold scanner_sound; cbn [current strings idx].
    repeat split; auto.
    + apply Forall_app. split; [exact Hcur|]. now repeat constructor.
    + rewrite len_app. change (len [b]) with 1. lia.
  - rewrite ScannerFacts.step_close by assumption.
    unfold scanner_sound; cbn [current strings idx]. repeat split.
    + constructor.
    + apply Forall_app. split; [exact Hrec|now apply run_records_ok].
    + unfold run_records. change (len []) with 0.
      destruct (Z.leb_spec 8 (len (current st))); cbn [andb].
      * destruct (keeps (strip (current st))); cbn [List.length]; lia.
      * cbn [List.length]. pose proof (len_nonneg (current st)). lia.
Qed.

Lemma fold_sound filename content n st :
  scanner_sound filename n st ->
  scanner_sound filename (n + len content) (fold_left (step filename) content st).
Proof.
  revert n st; induction content as [|b content IH]; intros n st H.
  - change (len []) with 0. now rewrite Z.add_0_r.
  - cbn [fold_left]. rewrite len_cons.
    replace (n + (1 + len content)) with (n + 1 + len content) by lia.
    apply IH. now apply step_sound.
Qed.

Lemma run_sound filename content : scanner_sound filename (len content) (run filename content).
Proof.
  apply (fold_sound filename content 0 init).
  unfold scanner_sound; cbn. repeat split; try constructor. lia.
Qed.

End ScannerMore.

(** X5.  Every record of the heuristic scanner, for any buffer, carries the
    file name it was given and a text that is not empty, is made of printable
    ASCII, tabs, newlines and carriage returns only, has no white space at
    either end, and does not start with [//] or [#!]. *)
Theorem scanner_records_are_clean (content : bytes) (filename : str) :
  Forall (scanner_record filename) (extract_strings_from_binary content filename).
Proof.
  unfold extract_strings_from_binary. apply Forall_firstn.
  exact (proj1 (proj2 (ScannerMore.run_sound filename content))).
Qed.

(** X6.  Every record of the heuristic scanner costs at least nine bytes of
    input, a run of eight and the byte that closes it: nine times the number
    of records is at most the length of the buffer, so a buffer of fewer
    than nine bytes, the empty one included, gives no record. *)
Theorem scanner_record_costs_nine_bytes (content : bytes) (filename : str) :
  9 * len (extract_strings_from_binary content filename) <= len content
  /\ (len content < 9 -> extract_strings_from_binary content filename = []).
Proof.
  assert (H : 9 * len (extract_strings_from_binary content filename) <= len content).
  { destruct (ScannerMore.run_sound filename content) as (_ & _ & Hn).
    rewrite (ScannerFacts.counted_idx _ (ScannerFacts.run_counted filename content)) in Hn.
    pose proof (len_nonneg (Scanner.current (Scanner.run filename content))).
    unfold extract_strings_from_binary, len in *. rewrite length_firstn. lia. }
  split; [exact H|]. intros Hshort.
  destruct (extract_strings_from_binary content filename) as [|r l]; [reflexivity|].
  rewrite len_cons in H. pose proof (len_nonneg l). lia.
Qed.

Lemma scanner_record_costs_nine_bytes_witness :
  len (lit "12345678") < 9
  /\ extract_strings_from_binary (lit "12345678") (lit "f.bin") = [].
Proof.
  assert (H : len (lit "12345678") < 9) by reflexivity.
  split; [exact H|].
  exact (proj2 (scanner_record_costs_nine_bytes (lit "12345678") (lit "f.bin")) H).
Defined.

(** X7.  The scan is incremental: the records of a buffer are the first
    records of any buffer that extends it, in the same order and with the
    same keys. *)
Theorem scanner_prefix_is_kept (content more : bytes) (filename : str) :
  exists later,
    extract_strings_from_binary (content ++ more) filename =
    extract_strings_from_binary content filename ++ later.
Proof.
  unfold extract_strings_from_binary, Scanner.run. rewrite fold_left_app.
  destruct (ScannerFacts.fold_extends filename more
              (fold_left (Scanner.step filename) content Scanner.init)) as [later ->].
  rewrite firstn_app. eexists. reflexivity.
Qed.

(** ** Reading back a [.locres] layout *)

Module LayoutFacts.
Import Cursor Locres Layout.

Lemma u32_length v : len (u32 v) = 4.
Proof. reflexivity. Qed.

Lemma i32_length v : len (i32 v) = 4.
Proof. reflexivity. Qed.

Lemma read_uint32_located content before rest v pos :
  content = before ++ u32 v ++ rest -> pos = len before ->
  0 <= v < 2 ^ 32 ->
  read_uint32 content pos = Ok (v, pos + 4).
Proof.
  intros -> -> Hv. unfold read_uint32, read_with, unpack_I.
  rewrite LocresFacts.unpack_unsigned_at by reflexivity.
  unfold u32. rewrite PckFacts.from_bytes_little_le_bytes; [reflexivity|].
  change (256 ^ Z.of_nat 4) with (2 ^ 32). lia.
Qed.

Lemma read_int32_located content before rest v pos :
  content = before ++ i32 v ++ rest -> pos = len before ->
  - 2 ^ 31 <= v < 2 ^ 31 ->
  read_int32 content pos = Ok (v, pos + 4).
Proof.
  intros -> -> Hv. unfold read_int32, read_with, unpack_i, unpack_I.
  rewrite LocresFacts.unpack_unsigned_at by reflexivity.
  unfold i32. rewrite PckFacts.from_bytes_little_le_bytes.
  - destruct (Z.ltb_spec v 0).
    + destruct (Z.ltb_spec (v + 2 ^ 32) (2 ^ 31)); [lia|].
      do 2 f_equal. lia.
    + destruct (Z.ltb_spec v (2 ^ 31)); [reflexivity|lia].
  - change (256 ^ Z.of_nat 4) with (2 ^ 32). destruct (Z.ltb_spec v 0); lia.
Qed.

Lemma ascii_text_spec s :
  ascii_text s = true ->
  Forall (fun c => 1 <= c < 128) s /\ len s + 1 < 2 ^ 31.
Proof.
  unfold ascii_text. intros H. apply andb_prop in H as [Hc Hl].
  split; [|lia]. apply Forall_forall. intros c Hin.
  rewrite forallb_forall in Hc. specialize (Hc c Hin). lia.
Qed.

Lemma bmp_text_spec s :
  bmp_text s = true ->
  Forall (fun c => 1 <= c < 55296 \/ 57344 <= c < 65536) s /\ len s + 1 < 2 ^ 31.
Proof.
  unfold bmp_text. intros H. apply andb_prop in H as [Hc Hl].
  split; [|lia]. apply Forall_forall. intros c Hin.
  rewrite forallb_forall in Hc. specialize (Hc c Hin). lia.
Qed.

(** The NUL that ends a text without NUL is what [rstrip] removes. *)
Lemma rstrip_terminator (s : str) :
  Forall (fun c => c <> 0) s -> rstrip_chars [0] (s ++ [0]) = s.
Proof.
  intros H. unfold rstrip_chars, rstrip_by.
  rewrite rev_app_distr. cbn [rev app dropwhile contains existsb].
  rewrite Z.eqb_refl. cbn [orb].
  rewrite StripFacts.dropwhile_none; [apply rev_involutive|].
  apply Forall_rev. revert H. apply Forall_impl. intros c Hc.
  cbn [contains existsb]. destruct (Z.eqb_spec c 0); [contradiction|reflexivity].
Qed.

Lemma firstn_exact {A} (a b : list A) (n : Z) :
  n = len a -> firstn (Z.to_nat n) (a ++ b) = a.
Proof.
  intros ->. unfold len. rewrite Nat2Z.id, firstn_app, firstn_all, Nat.sub_diag.
  cbn [firstn]. apply app_nil_r.
Qed.

(** A byte pair of a unit of the basic plane joins back into the unit. *)
Lemma unit_joins (c : Z) :
  0 <= c -> Z.lor (Z.shiftl (c / 256) 8) (c mod 256) = c.
Proof.
  intros Hc. apply Z.bits_inj'. intros n Hn. rewrite Z.lor_spec.
  change 256 with (2 ^ 8).
  destruct (Z.lt_ge_cases n 8).
  - rewrite Z.shiftl_spec_low by lia. rewrite Z.mod_pow2_bits_low by lia. reflexivity.
  - rewrite Z.shiftl_spec by lia. rewrite Z.mod_pow2_bits_high by lia.
    rewrite orb_false_r, Z.div_pow2_bits by lia. f_equal. lia.
Qed.

Lemma utf16_units_length (s : str) : len (utf16_units s) = 2 * len s.
Proof.
  induction s as [|c s IH]; [reflexivity|].
  cbn [utf16_units flat_map app]. rewrite !len_cons. fold (utf16_units s). lia.
Qed.

Lemma utf16le_scan_units (s : str) :
  Forall (fun c => 0 <= c < 55296 \/ 57344 <= c < 65536) s ->
  utf16le_scan (utf16_units s) = map Some s.
Proof.
  induction 1 as [|c s Hc _ IH]; [reflexivity|].
  cbn [utf16_units flat_map app]. fold (utf16_units s).
  cbn [utf16le_scan map]. rewrite unit_joins by lia.
  replace (is_surrogate c) with false; [cbn [negb]; now rewrite IH|].
  unfold is_surrogate. lia.
Qed.

Lemma decode_utf16le_units (s : str) :
  Forall (fun c => 0 <= c < 55296 \/ 57344 <= c < 65536) s ->
  decode_utf16le_replace (utf16_units s) = s.
Proof.
  intros H. unfold decode_utf16le_replace, replace_errors.
  rewrite utf16le_scan_units by assumption. rewrite map_map. apply map_id.
Qed.

(** Reading back an FString in UTF-8. *)
Lemma read_fstring_located content before rest s pos :
  content = before ++ fstring s ++ rest -> pos = len before ->
  ascii_text s = true ->
  read_fstring content pos = Ok (s, pos + len (fstring s)).
Proof.
  intros Hc Hp Hs. apply ascii_text_spec in Hs as [Hchars Hlen].
  unfold read_fstring, bind. destruct s as [|c s].
  - cbn [fstring] in *.
    rewrite (read_int32_located content before rest 0 pos) by (auto; lia).
    reflexivity.
  - set (t := c :: s) in *. change (fstring t) with (i32 (len t + 1) ++ t ++ [0]) in *.
    pose proof (len_nonneg t) as Ht.
    rewrite (read_int32_located content before ((t ++ [0]) ++ rest) (len t + 1) pos)
      by (auto; try lia; subst content; now rewrite <- !app_assoc).
    destruct (Z.eqb_spec (len t + 1) 0); [lia|].
    destruct (Z.ltb_spec (len t + 1) 0); [lia|].
    subst content pos.
    replace (before ++ (i32 (len t + 1) ++ t ++ [0]) ++ rest)
      with ((before ++ i32 (len t + 1)) ++ (t ++ [0]) ++ rest)
      by (now rewrite <- !app_assoc).
    replace (len before + 4) with (len (before ++ i32 (len t + 1)))
      by (now rewrite len_app).
    rewrite LocresFacts.read_text_at by lia.
    rewrite firstn_exact by (rewrite len_app; reflexivity).
    rewrite PckFacts.decode_utf8_replace_ascii.
    + rewrite rstrip_terminator.
      * do 2 f_equal. rewrite !len_app. change (len [0]) with 1. lia.
      * revert Hchars. apply Forall_impl. intros; lia.
    + apply Forall_app. split; [|repeat constructor; lia].
      revert Hchars. apply Forall_impl. intros; lia.
Qed.

(** Reading back an FString in UTF-16. *)
Lemma read_fstring_utf16_located content before rest s pos :
  content = before ++ fstring_utf16 s ++ rest -> pos = len before ->
  bmp_text s = true ->
  read_fstring content pos = Ok (s, pos + len (fstring_utf16 s)).
Proof.
  intros Hc Hp Hs. apply bmp_text_spec in Hs as [Hchars Hlen].
  unfold read_fstring, bind. destruct s as [|c s].
  - cbn [fstring_utf16] in *.
    rewrite (read_int32_located content before rest 0 pos) by (auto; lia).
    reflexivity.
  - set (t := c :: s) in *.
    change (fstring_utf16 t) with (i32 (- (len t + 1)) ++ utf16_units (t ++ [0])) in *.
    pose proof (len_nonneg t) as Ht.
    rewrite (read_int32_located content before (utf16_units (t ++ [0]) ++ rest)
               (- (len t + 1)) pos)
      by (auto; try lia; subst content; now rewrite <- !app_assoc).
    destruct (Z.eqb_spec (- (len t + 1)) 0); [lia|].
    destruct (Z.ltb_spec (- (len t + 1)) 0); [|lia].
    subst content pos.
    replace (before ++ (i32 (- (len t + 1)) ++ utf16_units (t ++ [0])) ++ rest)
      with ((before ++ i32 (- (len t + 1))) ++ utf16_units (t ++ [0]) ++ rest)
      by (now rewrite <- !app_assoc).
    replace (len before + 4) with (len (before ++ i32 (- (len t + 1))))
      by (now rewrite len_app).
    rewrite LocresFacts.read_text_at by lia.
    rewrite firstn_exact
      by (rewrite utf16_units_length, len_app; change (len [0]) with 1; lia).
    rewrite decode_utf16le_units.
    + rewrite rstrip_terminator.
      * do 2 f_equal. rewrite !len_app, utf16_units_length, len_app.
        change (len [0]) with 1. lia.
      * revert Hchars. apply Forall_impl. intros; lia.
    + apply Forall_app. split; [|repeat constructor; lia].
      revert Hchars. apply Forall_impl. intros; lia.
Qed.

End LayoutFacts.

Module TableFacts.
Import Cursor Locres Layout LayoutFacts.

(** The side conditions of a located read: where the field lies in the
    content, where the cursor is, and that the field is valid. *)
Ltac layout_side :=
  match goal with
  | |- _ = _ ++ _ => subst; now rewrite <- ?app_assoc
  | |- @eq Z _ _ => subst; rewrite ?len_app, ?u32_length; lia
  | |- @eq bool _ _ => assumption
  | |- _ => lia
  end.

Lemma read_keys_located (namespace filename : str) (entries : list entry) :
  forallb valid_entry entries = true ->
  forall content before rest pos strings,
    content = before ++ flat_map entry_bytes entries ++ rest -> pos = len before ->
    read_keys content (List.length entries) namespace filename strings pos
    = Ok (strings ++ flat_map (entry_records filename namespace) entries,
          pos + len (flat_map entry_bytes entries)).
Proof.
  induction entries as [|[[k h] v] entries IH]; intros Hvalid content before rest pos strings Hc Hp.
  - cbn. now rewrite app_nil_r, Z.add_0_r.
  - cbn [forallb valid_entry] in Hvalid.
    apply andb_prop in Hvalid as [He Hes]. apply andb_prop in He as [He Hv].
    apply andb_prop in He as [Hk Hh].
    cbn [flat_map entry_bytes] in Hc.
    cbn [List.length read_keys]. unfold bind.
    rewrite (read_fstring_located content before
               ((u32 h ++ fstring v) ++ flat_map entry_bytes entries ++ rest) k pos)
      by layout_side.
    rewrite (read_uint32_located content (before ++ fstring k)
               (fstring v ++ flat_map entry_bytes entries ++ rest) h)
      by layout_side.
    rewrite (read_fstring_located content ((before ++ fstring k) ++ u32 h)
               (flat_map entry_bytes entries ++ rest) v)
      by layout_side.
    rewrite (IH Hes content (((before ++ fstring k) ++ u32 h) ++ fstring v) rest)
      by layout_side.
    cbn [flat_map entry_records entry_bytes].
    f_equal. f_equal.
    + destruct (len v =? 0); [reflexivity|now rewrite <- app_assoc].
    + rewrite !len_app, u32_length. lia.
Qed.

Lemma read_namespaces_located (filename : str) (table : list (str * list entry)) :
  forallb valid_namespace table = true ->
  forall content before rest pos strings,
    content = before ++ flat_map namespace_bytes table ++ rest -> pos = len before ->
    read_namespaces content (List.length table) filename strings pos
    = Ok (strings ++ table_records filename table,
          pos + len (flat_map namespace_bytes table)).
Proof.
  induction table as [|[ns entries] table IH]; intros Hvalid content before rest pos strings Hc Hp.
  - cbn. now rewrite app_nil_r, Z.add_0_r.
  - cbn [forallb valid_namespace] in Hvalid.
    apply andb_prop in Hvalid as [Hn Htable]. apply andb_prop in Hn as [Hn Hentries].
    apply andb_prop in Hn as [Hns Hcount].
    cbn [flat_map namespace_bytes] in Hc.
    cbn [List.length read_namespaces]. unfold bind.
    pose proof (len_nonneg entries) as Hpos.
    rewrite (read_fstring_located content before
               ((u32 (len entries) ++ flat_map entry_bytes entries)
                ++ flat_map namespace_bytes table ++ rest) ns pos)
      by layout_side.
    rewrite (read_uint32_located content (before ++ fstring ns)
               (flat_map entry_bytes entries ++ flat_map namespace_bytes table ++ rest)
               (len entries))
      by layout_side.
    unfold len at 1. rewrite Nat2Z.id.
    rewrite (read_keys_located ns filename entries Hentries content
               ((before ++ fstring ns) ++ u32 (len entries))
               (flat_map namespace_bytes table ++ rest))
      by layout_side.
    rewrite (IH Htable content
               (((before ++ fstring ns) ++ u32 (len entries)) ++ flat_map entry_bytes entries)
               rest)
      by layout_side.
    unfold table_records. cbn [flat_map namespace_records namespace_bytes].
    f_equal. f_equal.
    + now rewrite <- app_assoc.
    + rewrite !len_app, u32_length. lia.
Qed.

Lemma walk_table (magic : bytes) (version : Z) (table : list (str * list entry))
    (trailing : bytes) (filename : str) :
  len magic = 16 -> 0 <= version < 2 ^ 32 -> valid_table table = true ->
  walk (table_bytes magic version table ++ trailing) filename
  = Ok (table_records filename table).
Proof.
  intros Hmagic Hversion Hvalid. unfold valid_table in Hvalid.
  apply andb_prop in Hvalid as [Hcount Hvalid].
  pose proof (len_nonneg table) as Hpos.
  unfold walk, bind, table_bytes.
  remember ((magic ++ u32 version ++ u32 (len table)
             ++ flat_map namespace_bytes table) ++ trailing) as content eqn:Hc.
  rewrite (read_uint32_located content magic
             (u32 (len table) ++ flat_map namespace_bytes table ++ trailing) version 16)
    by layout_side.
  rewrite (read_uint32_located content (magic ++ u32 version)
             (flat_map namespace_bytes table ++ trailing) (len table))
    by (rewrite <- ?Hmagic; layout_side).
  unfold len at 1. rewrite Nat2Z.id.
  rewrite (read_namespaces_located filename table Hvalid content
             ((magic ++ u32 version) ++ u32 (len table)) trailing)
    by (rewrite <- ?Hmagic; layout_side).
  reflexivity.
Qed.

End TableFacts.

Module WalkRecords.
Import Cursor Locres.

Lemma bind_ok {A B} (m : reader A) (k : A -> reader B) pos v pos' :
  bind m k pos = Ok (v, pos') ->
  exists a p, m pos = Ok (a, p) /\ k a p = Ok (v, pos').
Proof.
  unfold bind. destruct (m pos) as [[a p]|e]; [|discriminate].
  intros H. now exists a, p.
Qed.

Lemma rstrip_last (s : str) (d : Z) :
  rstrip_chars [0] s <> [] -> last (rstrip_chars [0] s) d <> 0.
Proof.
  unfold rstrip_chars, rstrip_by. intros Hne.
  rewrite StripFacts.last_rev. intros Hz.
  assert (Hd : dropwhile (fun c => contains c [0]) (rev s) <> [])
    by (intros E; rewrite E in Hne; now apply Hne).
  pose proof (StripFacts.dropwhile_head (fun c => contains c [0]) (rev s) d Hd) as Hh.
  rewrite Hz in Hh. discriminate Hh.
Qed.

(** A string that [read_fstring] returns is empty or ends with a character
    other than NUL. *)
Lemma read_fstring_clean content pos s pos' (d : Z) :
  read_fstring content pos = Ok (s, pos') -> s <> [] -> last s d <> 0.
Proof.
  unfold read_fstring. intros H. apply bind_ok in H as (length & p & _ & H).
  destruct (length =? 0).
  - injection H as <- _. congruence.
  - destruct (length <? 0); injection H as <- _; apply rstrip_last.
Qed.

Lemma read_keys_records content namespace filename n :
  forall strings pos out pos',
    Forall (locres_record filename) strings ->
    read_keys content n namespace filename strings pos = Ok (out, pos') ->
    Forall (locres_record filename) out.
Proof.
  induction n as [|n IH]; intros strings pos out pos' Hs H.
  - injection H as <- _. exact Hs.
  - cbn [read_keys] in H.
    apply bind_ok in H as (k & p1 & _ & H).
    apply bind_ok in H as (h & p2 & _ & H).
    apply bind_ok in H as (v & p3 & Hv & H).
    eapply IH; [|exact H].
    destruct (Z.eqb_spec (len v) 0) as [|Hne]; [exact Hs|].
    apply Forall_app. split; [exact Hs|]. constructor; [|constructor].
    unfold locres_record; cbn [file original key].
    assert (Hnil : v <> []) by (intros ->; now apply Hne).
    repeat split.
    + pose proof (len_nonneg v). lia.
    + eapply read_fstring_clean; eauto.
    + now exists namespace, k.
Qed.

Lemma read_namespaces_records content filename n :
  forall strings pos out pos',
    Forall (locres_record filename) strings ->
    read_namespaces content n filename strings pos = Ok (out, pos') ->
    Forall (locres_record filename) out.
Proof.
  induction n as [|n IH]; intros strings pos out pos' Hs H.
  - injection H as <- _. exact Hs.
  - cbn [read_namespaces] in H.
    apply bind_ok in H as (ns & p1 & _ & H).
    apply bind_ok in H as (count & p2 & _ & H).
    apply bind_ok in H as (strings' & p3 & Hk & H).
    eapply IH; [|exact H].
    eapply read_keys_records; eauto.
Qed.

Lemma walk_records content filename strings :
  walk content filename = Ok strings -> Forall (locres_record filename) strings.
Proof.
  unfold walk.
  match goal with |- context [?m 16] => destruct (m 16) as [[s p]|e] eqn:E end;
    [|discriminate].
  intros H; injection H as <-.
  apply bind_ok in E as (version & p1 & _ & E).
  apply bind_ok in E as (count & p2 & _ & E).
  eapply read_namespaces_records; [constructor|exact E].
Qed.

Lemma walk_short_header content filename :
  len content < 24 -> exists e, walk content filename = Raise e.
Proof.
  intros Hshort. unfold walk, bind, read_uint32, read_with, unpack_I, unpack_unsigned.
  destruct (Z.leb_spec (16 + 4) (len content)); [|eexists; reflexivity].
  destruct (Z.leb_spec (16 + 4 + 4) (len content)); [lia|eexists; reflexivity].
Qed.

End WalkRecords.

(** X8.  [parse_locres] reads back what the layout holds.  For a table of
    namespaces and entries in ASCII text without NUL, written as 16 bytes of
    magic, a version, the number of namespaces and, for each namespace, its
    name, the number of its entries and for each entry its key, hash and
    value (strings as UTF-8 FStrings that end with a NUL, the empty string as
    the length 0): the result is one record for each value that is not
    empty, in the order of the table, with the key [namespace.key], and
    bytes after the table are ignored. *)
Theorem parse_locres_reads_table
    (magic : bytes) (version : Z) (table : list (str * list Layout.entry))
    (trailing : bytes) (filename : str) :
  len magic = 16 -> 0 <= version < 2 ^ 32 -> Layout.valid_table table = true ->
  parse_locres (Layout.table_bytes magic version table ++ trailing) filename
  = Layout.table_records filename table.
Proof.
  intros Hmagic Hversion Hvalid. unfold parse_locres.
  now rewrite TableFacts.walk_table.
Qed.

Lemma parse_locres_reads_table_witness :
  parse_locres (Layout.table_bytes (repeat 0 16) 1 Layout.sample_table ++ lit "junk")
    (lit "game.locres")
  = [mkStringRecord (lit "Menu.start") (lit "Start game") (lit "game.locres");
     mkStringRecord (lit ".quit") (lit "Quit") (lit "game.locres")].
Proof.
  apply (parse_locres_reads_table (repeat 0 16) 1 Layout.sample_table (lit "junk")
           (lit "game.locres")).
  - reflexivity.
  - lia.
  - reflexivity.
Defined.

(** X9.  [read_fstring] reads back an FString in either encoding, wherever
    it lies in the buffer: ASCII text without NUL written in UTF-8 (positive
    length, NUL at the end), and text of the basic plane without NUL and
    without surrogates written in UTF-16LE (negative length, NUL unit at the
    end).  The text comes back without its terminator and the cursor stops
    right after the encoding. *)
Theorem read_fstring_round_trip (before rest : bytes) (s : str) :
  (Layout.ascii_text s = true ->
   Locres.read_fstring (before ++ Layout.fstring s ++ rest) (len before)
   = Ok (s, len before + len (Layout.fstring s)))
  /\ (Layout.bmp_text s = true ->
      Locres.read_fstring (before ++ Layout.fstring_utf16 s ++ rest) (len before)
      = Ok (s, len before + len (Layout.fstring_utf16 s))).
Proof.
  split; intros Hs.
  - now apply (LayoutFacts.read_fstring_located _ before rest).
  - now apply (LayoutFacts.read_fstring_utf16_located _ before rest).
Qed.

Lemma read_fstring_round_trip_witness :
  Locres.read_fstring ([1; 2] ++ Layout.fstring (lit "Ciao") ++ [9]) 2 = Ok (lit "Ciao", 11)
  /\ Locres.read_fstring ([1; 2] ++ Layout.fstring_utf16 [1062; 1080; 1072; 1086] ++ [9]) 2
     = Ok ([1062; 1080; 1072; 1086], 16).
Proof.
  split.
  - exact (proj1 (read_fstring_round_trip [1; 2] [9] (lit "Ciao")) eq_refl).
  - exact (proj2 (read_fstring_round_trip [1; 2] [9] [1062; 1080; 1072; 1086]) eq_refl).
Defined.

(** X10.  A buffer of fewer than 24 bytes has no room for the magic, the
    version and the number of namespaces: [parse_locres] gives what the
    heuristic scanner gives. *)
Theorem parse_locres_short_header (content : bytes) (filename : str) :
  len content < 24 ->
  parse_locres content filename = extract_strings_from_binary content filename.
Proof.
  intros Hshort. unfold parse_locres.
  now destruct (WalkRecords.walk_short_header content filename Hshort) as [e ->].
Qed.

Lemma parse_locres_short_header_witness :
  parse_locres (lit "a short readable file") (lit "a.locres") =
  extract_strings_from_binary (lit "a short readable file") (lit "a.locres").
Proof.
  apply parse_locres_short_header. reflexivity.
Defined.

(** X11.  Whenever the structured walk succeeds, every record it returns
    carries the file name it was given, a key made of a namespace, a dot and
    a key, and a value that is not empty and does not end with a NUL
    character. *)
Theorem walk_records_are_clean (content : bytes) (filename : str)
    (strings : list StringRecord) :
  Locres.walk content filename = Ok strings ->
  parse_locres content filename = strings
  /\ Forall (locres_record filename) strings.
Proof.
  intros H. split.
  - unfold parse_locres. now rewrite H.
  - exact (WalkRecords.walk_records content filename strings H).
Qed.

Lemma walk_records_are_clean_witness :
  Forall (locres_record (lit "game.locres"))
    [mkStringRecord (lit "NS.greeting") (lit "Hi") (lit "game.locres")].
Proof.
  assert (H : Locres.walk Fixtures.locres_hi (lit "game.locres")
              = Ok [mkStringRecord (lit "NS.greeting") (lit "Hi") (lit "game.locres")])
    by (vm_compute; reflexivity).
  exact (proj2 (walk_records_are_clean _ _ _ H)).
Defined.

(** ** More on Godot archives *)

Module PckRecords.
Import Cursor Pck.

Lemma msgid_value_length (line : str) :
  9 < len line -> len (slice line 7 (-1)) = len line - 8.
Proof.
  intros H. unfold slice, clip.
  destruct (Z.ltb_spec 7 0); [lia|]. destruct (Z.ltb_spec (-1) 0); [|lia].
  rewrite Z.min_l, Z.max_r by lia.
  unfold len in *. rewrite length_firstn, length_skipn. lia.
Qed.

Lemma line_records_ok (path : str) (numbered : nat * str) :
  endswith_any path text_suffixes = true ->
  Forall pck_record (line_records path numbered).
Proof.
  intros Hpath. destruct numbered as [i line]. unfold line_records.
  destruct (startswith line msgid_prefix); cbn [andb]; [|constructor].
  destruct (Z.ltb_spec 9 (len line)); constructor; [|constructor].
  unfold pck_record; cbn [file original key]. repeat split.
  - exact Hpath.
  - rewrite msgid_value_length by assumption. lia.
  - now exists i.
Qed.

Lemma file_records_ok (path : str) (file_data : bytes) :
  endswith_any path text_suffixes = true ->
  Forall pck_record (file_records path file_data).
Proof.
  intros Hpath. unfold file_records.
  induction (enumerate (split 10 (decode_utf8_replace file_data))) as [|x l IH];
    cbn [flat_map]; [constructor|].
  apply Forall_app. split; [now apply line_records_ok|exact IH].
Qed.

Lemma read_entries_records content n :
  forall strings pos out pos',
    Forall pck_record strings ->
    read_entries content n strings pos = Ok (out, pos') ->
    Forall pck_record out.
Proof.
  induction n as [|n IH]; intros strings pos out pos' Hs H.
  - injection H as <- _. exact Hs.
  - cbn [read_entries] in H.
    apply WalkRecords.bind_ok in H as (path_len & p1 & _ & H).
    apply WalkRecords.bind_ok in H as (path & p2 & _ & H).
    apply WalkRecords.bind_ok in H as (offset & p3 & _ & H).
    apply WalkRecords.bind_ok in H as (size & p4 & _ & H).
    apply WalkRecords.bind_ok in H as (md5 & p5 & _ & H).
    eapply IH; [|exact H].
    destruct (endswith_any path text_suffixes) eqn:E; [|exact Hs].
    apply Forall_app. split; [exact Hs|now apply file_records_ok].
Qed.

Lemma pck_walk_records content strings :
  walk content = Ok strings -> Forall pck_record strings.
Proof.
  unfold walk.
  match goal with |- context [?m 4] => destruct (m 4) as [[s p]|e] eqn:E end;
    [|discriminate].
  intros H; injection H as <-.
  apply WalkRecords.bind_ok in E as (version & p1 & _ & E).
  apply WalkRecords.bind_ok in E as (major & p2 & _ & E).
  apply WalkRecords.bind_ok in E as (minor & p3 & _ & E).
  apply WalkRecords.bind_ok in E as (patch & p4 & _ & E).
  apply WalkRecords.bind_ok in E as (reserved & p5 & _ & E).
  apply WalkRecords.bind_ok in E as (file_count & p6 & _ & E).
  eapply read_entries_records; [constructor|exact E].
Qed.

Lemma pck_walk_short_header content :
  len content < 88 -> exists e, walk content = Raise e.
Proof.
  intros Hshort.
  unfold walk, bind, read_I, read_with, advance, unpack_I, unpack_unsigned.
  repeat match goal with
         | |- context [?a <=? len content] =>
             destruct (Z.leb_spec a (len content)); [|eexists; reflexivity]
         end.
  lia.
Qed.

End PckRecords.

(** X12.  An archive of fewer than 88 bytes has no room for the magic, the
    four version words, the reserved words and the number of files, and a
    buffer that does not start with [GDPC] is not an archive: in both cases
    [parse_godot_pck] gives what the heuristic scanner gives. *)
Theorem parse_godot_pck_falls_back (content : bytes) (filename : str) :
  len content < 88 \/ slice content 0 4 <> Pck.GDPC ->
  parse_godot_pck content filename = extract_strings_from_binary content filename.
Proof.
  intros H. unfold parse_godot_pck.
  destruct (Pck.bytes_eqb (slice content 0 4) Pck.GDPC) eqn:E; cbn [negb]; [|reflexivity].
  destruct H as [Hshort|Hmagic].
  - now destruct (PckRecords.pck_walk_short_header content Hshort) as [e ->].
  - exfalso. apply Hmagic. unfold Pck.bytes_eqb in E.
    apply andb_prop in E as [Hl Hs]. apply Z.eqb_eq in Hl.
    apply startswith_same_length; [unfold len in Hl; lia|exact Hs].
Qed.

Lemma parse_godot_pck_falls_back_witness :
  parse_godot_pck (lit "GDPC" ++ repeat 0 80) (lit "game.pck") =
  extract_strings_from_binary (lit "GDPC" ++ repeat 0 80) (lit "game.pck").
Proof.
  apply parse_godot_pck_falls_back. left. reflexivity.
Defined.

(** X13.  Whenever the walk of the directory succeeds, every record it
    returns comes from an inner file whose path ends with [.po], [.csv],
    [.json] or [.tres], names that path as its file, has the key [pck_],
    the path, an underscore and a line index, and a text of at least 2
    characters: a [msgid] line with an empty or one-character text gives no
    record. *)
Theorem pck_records_are_clean (content : bytes) (filename : str)
    (strings : list StringRecord) :
  slice content 0 4 = Pck.GDPC ->
  Pck.walk content = Ok strings ->
  parse_godot_pck content filename = strings /\ Forall pck_record strings.
Proof.
  intros Hmagic H. split.
  - unfold parse_godot_pck. rewrite Hmagic, H. reflexivity.
  - exact (PckRecords.pck_walk_records content strings H).
Qed.

Lemma pck_records_are_clean_witness :
  parse_godot_pck Fixtures.hello_archive (lit "game.pck") =
    [mkStringRecord (lit "pck_strings.po_0") (lit "Hello") (lit "strings.po")]
  /\ Forall pck_record
       [mkStringRecord (lit "pck_strings.po_0") (lit "Hello") (lit "strings.po")].
Proof.
  apply pck_records_are_clean; vm_compute; reflexivity.
Defined.

(** A [msgid] line with one character of text is not extracted. *)
Lemma short_msgid_is_dropped :
  parse_godot_pck
    (Fixtures.pck_archive (lit "strings.po") (Fixtures.msgid_line (lit "A")))
    (lit "game.pck") = [].
Proof. vm_compute. reflexivity. Qed.

(** ** The textual fallback for Unity *)

Module YamlFacts.

Lemma startswith_nil (s : str) : startswith s [] = true.
Proof. now destruct s. Qed.

Lemma yaml_line_records_ok (filename : str) (numbered : nat * str) :
  Forall (yaml_record filename) (yaml_line_records filename numbered).
Proof.
  destruct numbered as [i line]. unfold yaml_line_records.
  destruct (contains 58 line); [|constructor].
  destruct (split1 58 line) as [before after].
  set (name := lstrip_chars (lit "- ") (strip before)).
  set (val := strip_chars [34; 39] (strip after)).
  destruct (Z.ltb_spec 3 (len val)) as [Hlen|]; cbn [andb]; [|constructor].
  destruct (startswith val (lit "{")) eqn:Hbrace; cbn [negb andb]; [constructor|].
  destruct (startswith val (lit "[")) eqn:Hbracket; cbn [negb]; constructor; [|constructor].
  assert (Hne : val <> []) by (intros E; rewrite E in Hlen; cbn in Hlen; lia).
  destruct (StripFacts.strip_by_ends (fun c => contains c [34; 39]) (strip after) 0 Hne)
    as [Hhd Hlast].
  fold (strip_chars [34; 39] (strip after)) in Hhd, Hlast. fold val in Hhd, Hlast.
  unfold yaml_record; cbn [file key original]. repeat split.
  - destruct (Z.eqb_spec (len name) 0) as [|Hk]; [discriminate|].
    intros E. rewrite E in Hk. now apply Hk.
  - lia.
  - destruct val as [|c val']; [congruence|].
    change (lit "{") with [123] in Hbrace. change (lit "[") with [91] in Hbracket.
    cbn [hd contains existsb startswith] in *.
    rewrite startswith_nil, andb_true_r in Hbrace, Hbracket.
    rewrite (Z.eqb_sym 123 c) in Hbrace. rewrite (Z.eqb_sym 91 c) in Hbracket.
    repeat rewrite ?orb_false_r in *.
    apply orb_false_iff in Hhd as [H34 H39].
    now rewrite H34, H39, Hbrace, Hbracket.
  - exact Hlast.
Qed.

End YamlFacts.

(** X14.  Every record of the textual fallback for Unity, for any buffer,
    carries the file name it was given, a key that is not empty (the text
    before the first colon of its line, or [line_] and the index of the line
    when that text is empty), and a value of at least 4 characters that
    starts with no quote, brace or bracket and ends with no quote. *)
Theorem yaml_records_are_clean (content : bytes) (filename : str) :
  Forall (yaml_record filename) (parse_unity_yaml_fallback content filename).
Proof.
  unfold parse_unity_yaml_fallback.
  induction (enumerate (split 10 (decode_utf8_replace content))) as [|x l IH];
    cbn [flat_map]; [constructor|].
  apply Forall_app. split; [apply YamlFacts.yaml_line_records_ok|exact IH].
Qed.

(** ** How many records a [.rvdata2] stream can give *)

Module RvBound.

Lemma utf8_scan_length (n : nat) (s : bytes) :
  (List.length s <= n)%nat -> (List.length (utf8_scan s) <= List.length s)%nat.
Proof.
  revert s; induction n as [|n IH]; intros s Hn.
  - destruct s; [cbn; lia|cbn in Hn; lia].
  - destruct s as [|b1 t1]; [cbn; lia|].
    cbn [utf8_scan].
    repeat match goal with
           | |- context [if ?c then _ else _] => destruct c
           | |- context [match ?t with [] => _ | _ :: _ => _ end] => destruct t
           end;
      cbn [List.length] in *;
      try lia;
      match goal with
      | |- context [utf8_scan ?x] =>
          assert (List.length (utf8_scan x) <= List.length x)%nat
            by (apply IH; cbn [List.length]; lia);
          cbn [List.length] in *; lia
      end.
Qed.

Lemma strict_errors_length (items : list (option Z)) (s : str) :
  strict_errors items = Ok s -> List.length s = List.length items.
Proof.
  revert s; induction items as [|[c|] items IH]; intros s; cbn [strict_errors].
  - intros H; injection H as <-. reflexivity.
  - destruct (strict_errors items) as [t|e]; [|discriminate].
    intros H; injection H as <-. cbn [List.length]. now rewrite (IH t).
  - discriminate.
Qed.

(** Decoding never gives more characters than there are bytes. *)
Lemma decode_utf8_strict_length (b : bytes) (s : str) :
  decode_utf8_strict b = Ok s -> len s <= len b.
Proof.
  unfold decode_utf8_strict. intros H. apply strict_errors_length in H.
  pose proof (utf8_scan_length (List.length b) b (Nat.le_refl _)).
  unfold len. lia.
Qed.

Lemma slice_length {A} (l : list A) (lo hi : Z) :
  0 <= lo <= hi -> len (slice l lo hi) <= hi - lo /\ len (slice l lo hi) <= len l - lo
                   \/ len (slice l lo hi) = 0.
Proof.
  intros H. rewrite slice_from by assumption.
  unfold len. rewrite length_firstn, length_skipn. lia.
Qed.

Section Bound.
Variable unicode_printable : Z -> bool.
Variable content : bytes.
Variable filename : str.
Hypothesis Hwf : well_formed content.

Lemma rv_string_bounded (length pos pos0 : Z) (i : nat) (strings : list StringRecord) :
  0 <= length -> pos0 + 2 <= pos -> 0 <= pos0 ->
  rv_bounded content (mkRv pos0 i strings) ->
  rv_bounded content (rv_string unicode_printable content filename length pos i strings).
Proof.
  intros Hl Hp Hp0 (_ & Hcount & Hcur & Hbuf). cbn [rv_pos rv_i rv_strings] in *.
  unfold rv_string.
  destruct (decode_utf8_strict _) as [s|e] eqn:E.
  - destruct (Z.ltb_spec 2 (len s)); cbn [andb].
    + destruct (isprintable unicode_printable s).
      * apply decode_utf8_strict_length in E.
        destruct (slice_length content pos (pos + length) ltac:(lia)) as [[H1 H2]|H0];
          [|lia].
        unfold rv_bounded; cbn [rv_pos rv_i rv_strings].
        rewrite len_app. change (len [_]) with 1.
        repeat split; lia.
      * unfold rv_bounded; cbn [rv_pos rv_i rv_strings]. repeat split; lia.
    + unfold rv_bounded; cbn [rv_pos rv_i rv_strings]. repeat split; lia.
  - unfold rv_bounded; cbn [rv_pos rv_i rv_strings]. repeat split; lia.
Qed.

Lemma rv_turn_bounded (st st' : rv_state) :
  rv_bounded content st -> rv_pos st < len content - 4 ->
  rv_turn unicode_printable content filename st = Ok st' ->
  rv_bounded content st'.
Proof.
  intros Hb Hin. pose proof Hb as (Hpos & Hcount & Hcur & Hbuf). unfold rv_turn.
  rewrite RvFacts.getitem_inside by lia.
  destruct (byte_at content (rv_pos st) =? 34).
  - rewrite RvFacts.getitem_inside by lia.
    pose proof (RvFacts.byte_at_range content (rv_pos st + 1) Hwf ltac:(lia)) as Hlb.
    pose proof (RvFacts.rv_length_bounds content Hwf
                  (byte_at content (rv_pos st + 1)) (rv_pos st + 1 + 1) Hlb)
      as [Hlen Hstart].
    destruct (rv_length content _ _) as [length start]; cbn [fst snd] in Hlen, Hstart.
    intros H; injection H as <-.
    apply (rv_string_bounded length start (rv_pos st)); try lia.
    now destruct st.
  - intros H; injection H as <-.
    unfold rv_bounded; cbn [rv_pos rv_i rv_strings]. repeat split; lia.
Qed.

Lemma rv_loop_bounded (fuel : nat) (st : rv_state) (strings : list StringRecord) :
  rv_bounded content st ->
  rv_loop unicode_printable fuel content filename st = Some (Ok strings) ->
  strings = [] \/ 5 * len strings + 2 <= len content.
Proof.
  revert st; induction fuel as [|fuel IH]; intros st Hb; cbn [rv_loop].
  - destruct (rv_pos st <? len content - 4); [discriminate|].
    intros Hr; injection Hr as <-. destruct Hb as (_ & Hcount & _ & Hbuf).
    destruct Hbuf as [Hz|Hbuf]; [|right; lia].
    left. rewrite Hz in Hcount. destruct (rv_strings st); [reflexivity|].
    rewrite len_cons in Hcount. pose proof (len_nonneg l). lia.
  - destruct (Z.ltb_spec (rv_pos st) (len content - 4)) as [Hin|Hout].
    + destruct (rv_turn unicode_printable content filename st) as [st'|e] eqn:E;
        [|discriminate].
      apply IH. eapply rv_turn_bounded; eauto.
    + intros Hr; injection Hr as <-. destruct Hb as (_ & Hcount & _ & Hbuf).
      destruct Hbuf as [Hz|Hbuf]; [|right; lia].
      left. rewrite Hz in Hcount. destruct (rv_strings st); [reflexivity|].
      rewrite len_cons in Hcount. pose proof (len_nonneg l). lia.
Qed.

End Bound.
End RvBound.

(** X15.  A record of [parse_rvdata2] costs at least five bytes of the
    buffer after its first two: the tag, a length byte and three bytes of
    text.  For a buffer of [n] bytes that gives records, five times their
    number plus two is at most [n]; a buffer of fewer than 7 bytes, the
    empty one included, gives none. *)
Theorem rvdata2_record_costs_five_bytes
    (unicode_printable : Z -> bool) (content : bytes) (filename : str) :
  well_formed content ->
  exists strings,
    parse_rvdata2 unicode_printable content filename = Some strings
    /\ (strings = [] \/ 5 * len strings + 2 <= len content)
    /\ (len content < 7 -> strings = []).
Proof.
  intros Hwf.
  destruct (RvFacts.rv_loop_returns unicode_printable content filename Hwf
              (List.length content) (mkRv 2 0 [])) as (strings & E & _).
  { unfold rv_invariant; cbn. repeat split; [lia|constructor]. }
  { cbn [rv_pos]. unfold len. lia. }
  assert (Hb : strings = [] \/ 5 * len strings + 2 <= len content).
  { apply (RvBound.rv_loop_bounded unicode_printable content filename Hwf
             (List.length content) (mkRv 2 0 []) strings); [|exact E].
    unfold rv_bounded; cbn. repeat split; try lia; now left. }
  exists strings. split; [unfold parse_rvdata2; now rewrite E|].
  split; [exact Hb|]. intros Hshort. destruct Hb as [|Hb]; [assumption|].
  destruct strings as [|r l]; [reflexivity|].
  rewrite len_cons in Hb. pose proof (len_nonneg l). lia.
Qed.

Lemma rvdata2_record_costs_five_bytes_witness :
  well_formed Fixtures.rvdata2_two
  /\ exists strings,
       parse_rvdata2 Fixtures.ascii_only Fixtures.rvdata2_two (lit "Map001.rvdata2")
       = Some strings
       /\ (strings = [] \/ 5 * len strings + 2 <= len Fixtures.rvdata2_two).
Proof.
  assert (Hwf : well_formed Fixtures.rvdata2_two) by reflexivity.
  split; [exact Hwf|].
  destruct (rvdata2_record_costs_five_bytes Fixtures.ascii_only Fixtures.rvdata2_two
              (lit "Map001.rvdata2") Hwf) as (strings & E & Hb & _).
  exists strings. split; assumption.
Defined.

(** ** More on the dispatch of [POST /parse] *)

Module DispatchFacts.

Lemma endswith_pck_only (s ext : str) :
  endswith s (lit ".pck") = true ->
  In ext [lit ".assets"; lit ".asset"; lit ".bundle"; lit ".locres"; lit ".rvdata2"] ->
  endswith s ext = false.
Proof.
  unfold endswith. intros H Hin.
  change (rev (lit ".pck")) with [107; 99; 112; 46] in H.
  destruct (rev s) as [|c r]; [discriminate H|].
  cbn [startswith] in H. apply andb_prop in H as [Hc _].
  apply Z.eqb_eq in Hc. subst c.
  repeat (destruct Hin as [<-|Hin]; [reflexivity|]). destruct Hin.
Qed.

Lemma parse_locres_file (content : bytes) (filename : str) :
  Forall (fun r => file r = filename) (parse_locres content filename).
Proof.
  unfold parse_locres. destruct (Locres.walk content filename) as [strings|e] eqn:E.
  - apply WalkRecords.walk_records in E. revert E. apply Forall_impl.
    intros r Hr. exact (proj1 Hr).
  - pose proof (ScannerMore.run_sound filename content) as (_ & Hrec & _).
    unfold extract_strings_from_binary. apply Forall_firstn.
    revert Hrec. apply Forall_impl. intros r Hr. exact (proj1 Hr).
Qed.

End DispatchFacts.

(** X16.  The Godot codec runs only when the engine hint is [godot] and
    the lowered file name ends with [.pck], both at once.  With the hint
    [godot] and a name without any known extension the request is refused as
    a format that is not supported; so is a [.pck] file with an engine hint
    that names no codec.  With both, the answer holds the records of
    [parse_godot_pck] for the lowered name, their number, and the name as it
    was uploaded. *)
Theorem godot_needs_hint_and_extension
    (unicode_printable : Z -> bool) (lower : str -> str)
    (unitypy_parse : option (bytes -> str -> result (list StringRecord)))
    (content : bytes) (file_filename engine : str) :
  ((forall ext, In ext known_extensions -> endswith (lower file_filename) ext = false) ->
   parse_file unicode_printable lower unitypy_parse content file_filename (lit "godot")
   = refused (lower file_filename))
  /\ (~ In engine known_engines ->
      endswith (lower file_filename) (lit ".pck") = true ->
      parse_file unicode_printable lower unitypy_parse content file_filename engine
      = refused (lower file_filename))
  /\ (endswith (lower file_filename) (lit ".pck") = true ->
      parse_file unicode_printable lower unitypy_parse content file_filename (lit "godot")
      = Some (Ok (mkParseResponse (lit "godot") file_filename
                    (len (parse_godot_pck content (lower file_filename)))
                    (parse_godot_pck content (lower file_filename))))).
Proof.
  split; [|split].
  - intros Hext. unfold parse_file, parse_dispatch, Pck.endswith_any, refused.
    cbn [existsb]. rewrite !Hext by (simpl; tauto). reflexivity.
  - intros Hengine Hpck. unfold parse_file, parse_dispatch, Pck.endswith_any, refused.
    cbn [existsb].
    rewrite !(str_eqb_not_in engine known_engines) by (auto; simpl; tauto).
    rewrite !(DispatchFacts.endswith_pck_only _ _ Hpck) by (simpl; tauto).
    reflexivity.
  - intros Hpck. unfold parse_file, parse_dispatch, Pck.endswith_any.
    cbn [existsb].
    rewrite !(DispatchFacts.endswith_pck_only _ _ Hpck) by (simpl; tauto).
    rewrite Hpck. reflexivity.
Qed.

Lemma godot_needs_hint_and_extension_witness :
  parse_file Fixtures.ascii_only (fun s => s) None Fixtures.hello_archive
    (lit "game.bin") (lit "godot") = refused (lit "game.bin")
  /\ parse_file Fixtures.ascii_only (fun s => s) None Fixtures.hello_archive
       (lit "game.pck") (lit "renpy") = refused (lit "game.pck")
  /\ parse_file Fixtures.ascii_only (fun s => s) None Fixtures.hello_archive
       (lit "game.pck") (lit "godot")
     = Some (Ok (mkParseResponse (lit "godot") (lit "game.pck")
                   (len (parse_godot_pck Fixtures.hello_archive (lit "game.pck")))
                   (parse_godot_pck Fixtures.hello_archive (lit "game.pck")))).
Proof.
  split; [|split].
  - apply (proj1 (godot_needs_hint_and_extension Fixtures.ascii_only (fun s => s) None
                    Fixtures.hello_archive (lit "game.bin") (lit "godot"))).
    intros ext H. repeat (destruct H as [<-|H]; [reflexivity|]). destruct H.
  - apply (proj1 (proj2 (godot_needs_hint_and_extension Fixtures.ascii_only (fun s => s) None
                           Fixtures.hello_archive (lit "game.pck") (lit "renpy")))).
    + intros H. repeat (destruct H as [H|H]; [discriminate H|]). exact H.
    + reflexivity.
  - apply (proj2 (proj2 (godot_needs_hint_and_extension Fixtures.ascii_only (fun s => s) None
                           Fixtures.hello_archive (lit "game.pck") (lit "godot")))).
    reflexivity.
Defined.

(** X17.  With the engine hint [unreal], a file whose lowered name has no
    Unity extension is parsed by [parse_locres], whatever its extension: the
    answer never fails, holds the records and their number, and names the
    file as it was uploaded, while every record names it in lower case. *)
Theorem unreal_hint_response
    (unicode_printable : Z -> bool) (lower : str -> str)
    (unitypy_parse : option (bytes -> str -> result (list StringRecord)))
    (content : bytes) (file_filename : str) :
  (forall ext, In ext unity_extensions -> endswith (lower file_filename) ext = false) ->
  parse_file unicode_printable lower unitypy_parse content file_filename (lit "unreal")
  = Some (Ok (mkParseResponse (lit "unreal") file_filename
                (len (parse_locres content (lower file_filename)))
                (parse_locres content (lower file_filename))))
  /\ Forall (fun r => file r = lower file_filename)
            (parse_locres content (lower file_filename)).
Proof.
  intros Hext. split; [|apply DispatchFacts.parse_locres_file].
  unfold parse_file, parse_dispatch, Pck.endswith_any. cbn [existsb].
  rewrite !Hext by (simpl; tauto). reflexivity.
Qed.

Lemma unreal_hint_response_witness :
  Forall (fun r => file r = lit "game.locres")
         (parse_locres Fixtures.locres_hi (lit "game.locres")).
Proof.
  refine (proj2 (unreal_hint_response Fixtures.ascii_only
                   (fun s => s) None Fixtures.locres_hi (lit "game.locres") _)).
  intros ext H. repeat (destruct H as [<-|H]; [reflexivity|]). destruct H.
Defined.

(** ** Reading back a stream of string objects *)

Module RvStream.
Import RvLayout.

Lemma getitem_located (before rest : bytes) (b : Z) :
  getitem (before ++ b :: rest) (len before) = Ok b.
Proof.
  unfold getitem. pose proof (len_nonneg before) as Hb. pose proof (len_nonneg rest).
  destruct (Z.ltb_spec (len before) 0); [lia|].
  rewrite len_app, len_cons.
  destruct (Z.leb_spec 0 (len before)); [|lia].
  destruct (Z.ltb_spec (len before) (len before + (1 + len rest))); [|lia].
  cbn [andb]. unfold len. rewrite Nat2Z.id. now rewrite nth_middle.
Qed.

Lemma strict_errors_all (s : str) : strict_errors (map Some s) = Ok s.
Proof. induction s as [|c s IH]; [reflexivity|]. cbn. now rewrite IH. Qed.

Lemma decode_utf8_strict_ascii (s : bytes) :
  Forall (fun b => b < 128) s -> decode_utf8_strict s = Ok s.
Proof.
  intros H. unfold decode_utf8_strict.
  rewrite PckFacts.utf8_scan_ascii by assumption. apply strict_errors_all.
Qed.

Lemma printable_text_spec (t : str) :
  printable_text t = true ->
  Forall (fun c => 32 <= c < 127) t /\ 3 <= len t < 65536.
Proof.
  unfold printable_text. intros H. apply andb_prop in H as [H Hhi].
  apply andb_prop in H as [Hc Hlo]. split; [|lia].
  apply Forall_forall. intros c Hin. rewrite forallb_forall in Hc.
  specialize (Hc c Hin). lia.
Qed.

Lemma isprintable_ascii (unicode_printable : Z -> bool) (t : str) :
  Forall (fun c => 32 <= c < 127) t -> isprintable unicode_printable t = true.
Proof.
  intros H. unfold isprintable. apply forallb_forall. intros c Hin.
  rewrite Forall_forall in H. specialize (H c Hin). unfold isprintable_char.
  destruct (Z.ltb_spec c 128); lia.
Qed.

(** The header of an object, read at the cursor after the tag. *)
Lemma header_located (before rest text : bytes) :
  3 <= len text < 65536 ->
  exists lb header,
    rv_object text = 34 :: lb :: header ++ text
    /\ rv_length ((before ++ [34; lb]) ++ header ++ text ++ rest) lb
         (len (before ++ [34; lb]))
       = (len text, len (before ++ [34; lb]) + len header).
Proof.
  intros Hlen. unfold rv_object.
  destruct (Z.ltb_spec (len text) 128) as [Hshort|Hlong].
  - exists (len text), []. split; [reflexivity|].
    unfold rv_length. rewrite RvFacts.high_bit_test by lia.
    destruct (Z.ltb_spec (len text) 128); [|lia]. cbn [negb].
    now rewrite Z.add_0_r.
  - exists 130, (Fixtures.le_bytes 2 (len text)). split; [reflexivity|].
    unfold rv_length. change (negb (Z.land 130 128 =? 0)) with true.
    change (Z.land 130 127) with 2. cbv iota.
    rewrite slice_after by lia.
    rewrite (LayoutFacts.firstn_exact (Fixtures.le_bytes 2 (len text))) by reflexivity.
    rewrite PckFacts.from_bytes_little_le_bytes
      by (change (256 ^ Z.of_nat 2) with 65536; lia).
    reflexivity.
Qed.

Section Stream.
Variable unicode_printable : Z -> bool.
Variable filename : str.

Lemma rv_turn_object (before rest text : bytes) (i : nat) (strings : list StringRecord) :
  printable_text text = true ->
  rv_turn unicode_printable (before ++ rv_object text ++ rest) filename
    (mkRv (len before) i strings)
  = Ok (mkRv (len before + len (rv_object text)) (S i)
          (strings ++ [mkStringRecord (lit "str_" ++ str_of_nat i) text filename])).
Proof.
  intros Ht. apply printable_text_spec in Ht as [Hchars Hlen].
  destruct (header_located before rest text Hlen) as (lb & header & Hobj & Hhead).
  rewrite Hobj. unfold rv_turn. cbn [rv_pos rv_i rv_strings].
  cbn [app]. rewrite <- (app_assoc header text rest).
  rewrite getitem_located. cbn [Z.eqb Pos.eqb].
  replace (before ++ 34 :: lb :: header ++ text ++ rest)
    with ((before ++ [34]) ++ lb :: header ++ text ++ rest)
    by (now rewrite <- app_assoc).
  replace (len before + 1) with (len (before ++ [34])) by (now rewrite len_app).
  rewrite getitem_located.
  replace ((before ++ [34]) ++ lb :: header ++ text ++ rest)
    with ((before ++ [34; lb]) ++ header ++ text ++ rest)
    by (now rewrite <- !app_assoc).
  replace (len (before ++ [34]) + 1) with (len (before ++ [34; lb]))
    by (rewrite !len_app; change (len [34]) with 1; change (len [34; lb]) with 2; lia).
  rewrite Hhead. unfold rv_string.
  replace ((before ++ [34; lb]) ++ header ++ text ++ rest)
    with (((before ++ [34; lb]) ++ header) ++ text ++ rest)
    by (now rewrite <- !app_assoc).
  replace (len (before ++ [34; lb]) + len header)
    with (len ((before ++ [34; lb]) ++ header)) by (now rewrite len_app).
  rewrite slice_after by lia.
  rewrite LayoutFacts.firstn_exact by reflexivity.
  rewrite decode_utf8_strict_ascii by (revert Hchars; apply Forall_impl; intros; lia).
  destruct (Z.ltb_spec 2 (len text)); [|lia].
  rewrite isprintable_ascii by assumption. cbn [andb].
  do 2 f_equal.
  change (34 :: lb :: header ++ text) with ([34; lb] ++ header ++ text).
  rewrite !len_app. lia.
Qed.

Lemma rv_loop_objects (texts : list bytes) :
  forallb printable_text texts = true ->
  forall fuel before tail i strings,
    len tail = 4 -> (List.length texts <= fuel)%nat ->
    rv_loop unicode_printable fuel (before ++ flat_map rv_object texts ++ tail) filename
      (mkRv (len before) i strings)
    = Some (Ok (strings ++ rv_records filename i texts)).
Proof.
  induction texts as [|t texts IH]; intros Hvalid fuel before tail i strings Htail Hfuel.
  - cbn [flat_map app rv_records enumerate_from map]. rewrite app_nil_r.
    assert (Hout : (len before <? len (before ++ tail) - 4) = false)
      by (rewrite len_app; apply Z.ltb_ge; lia).
    destruct fuel; cbn [rv_loop rv_pos rv_strings]; now rewrite Hout.
  - cbn [forallb] in Hvalid. apply andb_prop in Hvalid as [Ht Hts].
    destruct fuel as [|fuel]; [cbn in Hfuel; lia|].
    cbn [flat_map]. rewrite <- app_assoc.
    cbn [rv_loop rv_pos].
    assert (Hin : (len before <? len (before ++ rv_object t ++ flat_map rv_object texts ++ tail) - 4)
                  = true).
    { apply Z.ltb_lt. rewrite !len_app.
      pose proof (len_nonneg (flat_map rv_object texts)).
      pose proof (printable_text_spec t Ht) as [_ Hlen].
      assert (2 <= len (rv_object t)).
      { unfold rv_object. destruct (len t <? 128); rewrite !len_app;
          pose proof (len_nonneg t); change (len [34; _]) with 2;
          pose proof (len_nonneg (Fixtures.le_bytes 2 (len t))); lia. }
      lia. }
    rewrite Hin. rewrite rv_turn_object by assumption.
    replace (before ++ rv_object t ++ flat_map rv_object texts ++ tail)
      with ((before ++ rv_object t) ++ flat_map rv_object texts ++ tail)
      by (now rewrite <- app_assoc).
    replace (len before + len (rv_object t)) with (len (before ++ rv_object t))
      by (now rewrite len_app).
    rewrite IH by (auto; cbn in Hfuel; lia).
    unfold rv_records. cbn [enumerate_from map fst snd].
    now rewrite <- app_assoc.
Qed.

End Stream.
End RvStream.

(** X18.  [parse_rvdata2] reads back a stream of string objects.  For two
    bytes of magic followed by string objects one after the other and four
    closing bytes, where every text is printable ASCII of 3 to 65535
    characters and its length is written on one byte below 128 and after the
    byte 0x82 on two bytes otherwise: the result is one record for each text,
    in order, under the keys [str_0], [str_1], ... *)
Theorem parse_rvdata2_reads_stream
    (unicode_printable : Z -> bool) (m0 m1 : Z) (texts : list bytes) (tail : bytes)
    (filename : str) :
  forallb RvLayout.printable_text texts = true ->
  len tail = 4 ->
  parse_rvdata2 unicode_printable (RvLayout.rv_stream m0 m1 texts tail) filename
  = Some (RvLayout.rv_records filename 0 texts).
Proof.
  intros Hvalid Htail. unfold parse_rvdata2, RvLayout.rv_stream.
  change 2 with (len [m0; m1]).
  rewrite (RvStream.rv_loop_objects unicode_printable filename texts Hvalid).
  - reflexivity.
  - exact Htail.
  - rewrite !length_app.
    assert (H : forall l, (List.length l <= List.length (flat_map RvLayout.rv_object l))%nat).
    { induction l as [|t l IH]; [cbn; lia|].
      cbn [flat_map]. rewrite length_app. cbn [List.length].
      assert (1 <= List.length (RvLayout.rv_object t))%nat
        by (unfold RvLayout.rv_object; destruct (len t <? 128); cbn; lia).
      lia. }
    specialize (H texts). lia.
Qed.

Lemma parse_rvdata2_reads_stream_witness :
  parse_rvdata2 Fixtures.ascii_only
    (RvLayout.rv_stream 4 8 RvLayout.sample_texts [48; 48; 48; 48]) (lit "System.rvdata2")
  = Some (RvLayout.rv_records (lit "System.rvdata2") 0 RvLayout.sample_texts).
Proof.
  apply parse_rvdata2_reads_stream; reflexivity.
Defined.

(** ** Reading back the fields of a textual asset *)

Module YamlFields.
Import YamlLayout.

Lemma hd_rev {A} (l : list A) (d : A) : hd d (rev l) = last l d.
Proof. rewrite <- (StripFacts.last_rev (rev l) d). now rewrite rev_involutive. Qed.

Lemma dropwhile_fixed (p : Z -> bool) (s : str) (d : Z) :
  s <> [] -> p (hd d s) = false -> dropwhile p s = s.
Proof.
  destruct s as [|c s]; [congruence|]. cbn [hd dropwhile]. now intros _ ->.
Qed.

Lemma rstrip_by_fixed (p : Z -> bool) (s : str) (d : Z) :
  s <> [] -> p (last s d) = false -> rstrip_by p s = s.
Proof.
  intros Hne Hlast. unfold rstrip_by.
  rewrite (dropwhile_fixed p (rev s) d); [apply rev_involutive| |].
  - intros E. apply (f_equal (@rev Z)) in E. rewrite rev_involutive in E. now apply Hne.
  - now rewrite hd_rev.
Qed.

Lemma strip_by_fixed (p : Z -> bool) (s : str) (d : Z) :
  s <> [] -> p (hd d s) = false -> p (last s d) = false -> strip_by p s = s.
Proof.
  intros Hne Hhd Hlast. unfold strip_by, lstrip_by.
  rewrite (rstrip_by_fixed p s d) by assumption.
  now apply (dropwhile_fixed p s d).
Qed.

Lemma strip_fixed (s : str) (d : Z) :
  s <> [] -> isspace (hd d s) = false -> isspace (last s d) = false -> strip s = s.
Proof. apply strip_by_fixed. Qed.

Lemma strip_chars_fixed (chars s : str) (d : Z) :
  s <> [] -> contains (hd d s) chars = false -> contains (last s d) chars = false ->
  strip_chars chars s = s.
Proof. apply (strip_by_fixed (fun c => contains c chars)). Qed.

(** A space before a text that has no white space at its ends is what
    [strip] removes. *)
Lemma strip_leading_space (v : str) (d : Z) :
  v <> [] -> isspace (hd d v) = false -> isspace (last v d) = false ->
  strip (32 :: v) = v.
Proof.
  intros Hne Hhd Hlast. unfold strip, strip_by, lstrip_by.
  rewrite (rstrip_by_fixed isspace (32 :: v) d).
  - cbn [dropwhile]. change (isspace 32) with true. cbv iota.
    now apply (dropwhile_fixed isspace v d).
  - discriminate.
  - destruct v as [|c v]; [congruence|]. exact Hlast.
Qed.

Lemma split1_at (sep : Z) (k rest : str) :
  forallb (fun c => negb (c =? sep)) k = true ->
  split1 sep (k ++ sep :: rest) = (k, rest).
Proof.
  induction k as [|c k IH]; cbn [forallb app split1]; intros H.
  - now rewrite Z.eqb_refl.
  - apply andb_prop in H as [Hc Hk]. apply negb_true_iff in Hc.
    now rewrite Hc, (IH Hk).
Qed.

Lemma contains_middle (sep : Z) (k rest : str) : contains sep (k ++ sep :: rest) = true.
Proof.
  unfold contains. rewrite existsb_app. cbn [existsb]. rewrite Z.eqb_refl.
  now rewrite orb_true_r.
Qed.

Lemma valid_name_spec (k : str) :
  valid_name k = true ->
  k <> []
  /\ forallb (fun c => negb (c =? 58)) k = true
  /\ Forall (fun c => 0 <= c < 128 /\ c <> 10) k
  /\ isspace (hd 32 k) = false /\ hd 32 k <> 45 /\ isspace (last k 32) = false.
Proof.
  unfold valid_name. intros H.
  apply andb_prop in H as [H Hlast]. apply andb_prop in H as [H Hdash].
  apply andb_prop in H as [Hc Hhd].
  apply negb_true_iff in Hlast, Hdash, Hhd. apply Z.eqb_neq in Hdash.
  rewrite forallb_forall in Hc.
  split; [intros ->; discriminate Hhd|].
  split; [apply forallb_forall; intros c Hin; specialize (Hc c Hin);
          now apply andb_prop in Hc as [_ ->]|].
  split; [|auto].
  apply Forall_forall. intros c Hin. specialize (Hc c Hin).
  unfold is_plain_char in Hc. lia.
Qed.

Lemma valid_value_spec (v : str) :
  valid_value v = true ->
  4 <= len v
  /\ Forall (fun c => 0 <= c < 128 /\ c <> 10) v
  /\ isspace (hd 32 v) = false /\ contains (hd 32 v) [34; 39; 123; 91] = false
  /\ isspace (last v 32) = false /\ contains (last v 32) [34; 39] = false.
Proof.
  unfold valid_value. intros H.
  apply andb_prop in H as [H Hq]. apply andb_prop in H as [H Hlast].
  apply andb_prop in H as [H Hb]. apply andb_prop in H as [H Hhd].
  apply andb_prop in H as [Hc Hlen].
  apply negb_true_iff in Hq, Hlast, Hb, Hhd.
  rewrite forallb_forall in Hc.
  split; [lia|]. split; [|auto].
  apply Forall_forall. intros c Hin. specialize (Hc c Hin).
  unfold is_plain_char in Hc. lia.
Qed.

Lemma field_line_record (filename : str) (i : nat) (field : str * str) :
  valid_field field = true ->
  yaml_line_records filename (i, field_line field) = [field_record filename field].
Proof.
  destruct field as [k v]. unfold valid_field, field_line, field_record. cbn [fst snd].
  intros H. apply andb_prop in H as [Hk Hv].
  apply valid_name_spec in Hk as (Hkne & Hcolon & _ & Hkhd & Hkdash & Hklast).
  apply valid_value_spec in Hv as (Hlen & _ & Hvhd & Hvfirst & Hvlast & Hvq).
  assert (Hvne : v <> []) by (intros ->; cbn in Hlen; lia).
  unfold yaml_line_records. change (lit ": ") with [58; 32]. cbn [app].
  rewrite contains_middle, split1_at by assumption. cbv beta iota zeta.
  rewrite (strip_fixed k 32) by assumption.
  rewrite (strip_leading_space v 32) by assumption.
  unfold lstrip_chars, lstrip_by.
  rewrite (dropwhile_fixed _ k 32); [|assumption|].
  2:{ change (lit "- ") with [45; 32]. cbn [contains existsb].
      destruct (Z.eqb_spec (hd 32 k) 45); [contradiction|].
      destruct (Z.eqb_spec (hd 32 k) 32) as [E|]; [|reflexivity].
      rewrite E in Hkhd. discriminate Hkhd. }
  assert (Hquote : contains (hd 32 v) [34; 39] = false).
  { cbn [contains existsb] in *. apply orb_false_iff in Hvfirst as [H34 Hvfirst].
    apply orb_false_iff in Hvfirst as [H39 _]. now rewrite H34, H39. }
  rewrite (strip_chars_fixed [34; 39] v 32) by assumption.
  destruct (Z.ltb_spec 3 (len v)); [|lia].
  destruct v as [|c v']; [congruence|].
  change (lit "{") with [123]. change (lit "[") with [91].
  cbn [startswith hd contains existsb] in *.
  rewrite !YamlFacts.startswith_nil, !andb_true_r.
  apply orb_false_iff in Hvfirst as [_ Hvfirst].
  apply orb_false_iff in Hvfirst as [_ Hvfirst].
  apply orb_false_iff in Hvfirst as [H123 Hvfirst].
  apply orb_false_iff in Hvfirst as [H91 _].
  rewrite (Z.eqb_sym 123 c), (Z.eqb_sym 91 c), H123, H91. cbn [negb andb].
  destruct (Z.eqb_spec (len k) 0) as [E|]; [|reflexivity].
  destruct k; [congruence|]. rewrite len_cons in E. pose proof (len_nonneg k). lia.
Qed.

Lemma field_line_plain (field : str * str) :
  valid_field field = true -> forallb is_line_char (field_line field) = true.
Proof.
  destruct field as [k v]. unfold valid_field, field_line. cbn [fst snd].
  intros H. apply andb_prop in H as [Hk Hv].
  apply valid_name_spec in Hk as (_ & _ & Hk & _).
  apply valid_value_spec in Hv as (_ & Hv & _).
  rewrite !forallb_app. rewrite Forall_forall in Hk, Hv.
  apply andb_true_intro. split; [|apply andb_true_intro; split; [reflexivity|]].
  - apply forallb_forall. intros c Hin. specialize (Hk c Hin). unfold is_line_char. lia.
  - apply forallb_forall. intros c Hin. specialize (Hv c Hin). unfold is_line_char. lia.
Qed.

Lemma fields_records (filename : str) (fields : list (str * str)) :
  forallb valid_field fields = true ->
  forall i,
    flat_map (yaml_line_records filename) (enumerate_from i (map field_line fields))
    = map (field_record filename) fields.
Proof.
  induction fields as [|f fields IH]; intros Hvalid i; [reflexivity|].
  cbn [forallb] in Hvalid. apply andb_prop in Hvalid as [Hf Hfs].
  cbn [map enumerate_from flat_map].
  rewrite field_line_record by assumption. now rewrite IH.
Qed.

End YamlFields.

(** X19.  The textual fallback for Unity reads back the fields of a text.
    For lines made of a name, a colon, a space and a value, joined by
    newlines, where names and values are ASCII, a name holds no colon, does
    not start with a dash and has no white space at its ends, and a value has
    4 characters at least, no white space at its ends, no quote at either end
    and no brace or bracket at its start: the result is one record for each
    line, in order, with the name as key and the value as text. *)
Theorem yaml_fallback_reads_fields (fields : list (str * str)) (filename : str) :
  forallb YamlLayout.valid_field fields = true ->
  parse_unity_yaml_fallback
    (Fixtures.join_lines (map YamlLayout.field_line fields)) filename
  = map (YamlLayout.field_record filename) fields.
Proof.
  intros Hvalid. destruct fields as [|f fields]; [reflexivity|].
  assert (Hlines : ascii_lines (map YamlLayout.field_line (f :: fields))).
  { unfold ascii_lines. apply forallb_forall. intros line Hin.
    apply in_map_iff in Hin as (field & <- & Hin).
    apply YamlFields.field_line_plain.
    rewrite forallb_forall in Hvalid. now apply Hvalid. }
  unfold parse_unity_yaml_fallback.
  rewrite PckFacts.decode_utf8_replace_ascii by now apply PckFacts.join_lines_ascii.
  rewrite PckFacts.split_join_lines;
    [|discriminate|now apply PckFacts.ascii_lines_no_newline].
  now apply YamlFields.fields_records.
Qed.

Lemma yaml_fallback_reads_fields_witness :
  parse_unity_yaml_fallback
    (Fixtures.join_lines (map YamlLayout.field_line YamlLayout.sample_fields))
    (lit "level.asset")
  = [mkStringRecord (lit "m_Name") (lit "Main Menu") (lit "level.asset");
     mkStringRecord (lit "m_Text") (lit "Press any key: now") (lit "level.asset")].
Proof.
  apply (yaml_fallback_reads_fields YamlLayout.sample_fields (lit "level.asset")).
  reflexivity.
Defined.

(** ** Reading back a Godot archive *)

Module ArchiveFacts.
Import Cursor Pck PckLayout.

Lemma pck_u32_length v : len (u32 v) = 4.
Proof. reflexivity. Qed.

Lemma pck_u64_length v : len (u64 v) = 8.
Proof. reflexivity. Qed.

Lemma read_I_located content before rest v pos :
  content = before ++ u32 v ++ rest -> pos = len before -> is_u32 v = true ->
  read_I content pos = Ok (v, pos + 4).
Proof.
  intros Hc Hp Hv. unfold is_u32 in Hv.
  apply (LayoutFacts.read_uint32_located content before rest v pos Hc Hp). lia.
Qed.

Lemma read_Q_located content before rest v pos :
  content = before ++ u64 v ++ rest -> pos = len before -> 0 <= v < 2 ^ 64 ->
  read_Q content pos = Ok (v, pos + 8).
Proof.
  intros -> -> Hv. unfold read_Q, read_with, unpack_Q.
  rewrite LocresFacts.unpack_unsigned_at by reflexivity.
  unfold u64. rewrite PckFacts.from_bytes_little_le_bytes; [reflexivity|].
  change (256 ^ Z.of_nat 8) with (2 ^ 64). lia.
Qed.

Lemma rstrip_zero (s : str) : rstrip_chars [0] (s ++ [0]) = rstrip_chars [0] s.
Proof.
  unfold rstrip_chars, rstrip_by. rewrite rev_app_distr.
  cbn [rev app dropwhile contains existsb]. now rewrite Z.eqb_refl.
Qed.

(** The NUL bytes that pad a path are what [rstrip] removes. *)
Lemma rstrip_padding (path : str) (n : nat) :
  Forall (fun c => c <> 0) path -> rstrip_chars [0] (path ++ repeat 0 n) = path.
Proof.
  intros Hpath. induction n as [|n IH].
  - cbn [repeat]. rewrite app_nil_r. unfold rstrip_chars, rstrip_by.
    rewrite StripFacts.dropwhile_none; [apply rev_involutive|].
    apply Forall_rev. revert Hpath. apply Forall_impl. intros c Hc.
    cbn [contains existsb]. destruct (Z.eqb_spec c 0); [contradiction|reflexivity].
  - cbn [repeat]. rewrite repeat_cons, app_assoc, rstrip_zero. exact IH.
Qed.

Lemma valid_file_spec (f : inner_file) :
  valid_file f = true ->
  Forall (fun c => 1 <= c < 128) (inner_path f)
  /\ len (padded_path f) < 2 ^ 32 /\ len (inner_md5 f) = 16.
Proof.
  unfold valid_file. intros H. apply andb_prop in H as [H Hmd5].
  apply andb_prop in H as [Hc Hlen]. rewrite forallb_forall in Hc.
  split; [|lia]. apply Forall_forall. intros c Hin. specialize (Hc c Hin). lia.
Qed.

Lemma read_path_located content before rest (f : inner_file) pos :
  content = before ++ padded_path f ++ rest -> pos = len before ->
  valid_file f = true ->
  read_text content decode_utf8_replace (len (padded_path f)) pos
  = Ok (inner_path f, pos + len (padded_path f)).
Proof.
  intros -> -> Hf. apply valid_file_spec in Hf as (Hchars & _ & _).
  rewrite LocresFacts.read_text_at by apply len_nonneg.
  rewrite LayoutFacts.firstn_exact by reflexivity.
  unfold padded_path. rewrite PckFacts.decode_utf8_replace_ascii.
  - rewrite rstrip_padding; [reflexivity|].
    revert Hchars. apply Forall_impl. intros; lia.
  - apply Forall_app. split.
    + revert Hchars. apply Forall_impl. intros; lia.
    + apply Forall_forall. intros c Hin. apply repeat_spec in Hin. lia.
Qed.

Lemma entry_length (offset : Z) (f : inner_file) :
  valid_file f = true -> len (entry_bytes offset f) = 4 + len (padded_path f) + 8 + 8 + 16.
Proof.
  intros Hf. apply valid_file_spec in Hf as (_ & _ & Hmd5).
  unfold entry_bytes. rewrite !len_app, pck_u32_length, !pck_u64_length, Hmd5. lia.
Qed.

Lemma directory_length (files : list inner_file) :
  forallb valid_file files = true ->
  forall o o', len (directory o files) = len (directory o' files).
Proof.
  induction files as [|f fs IH]; intros Hvalid o o'; [reflexivity|].
  cbn [forallb] in Hvalid. apply andb_prop in Hvalid as [Hf Hfs].
  cbn [directory]. rewrite !len_app, !entry_length by assumption.
  now rewrite (IH Hfs (o + len (inner_data f)) (o' + len (inner_data f))).
Qed.

Ltac archive_side :=
  match goal with
  | |- _ = _ ++ _ => subst; now rewrite <- ?app_assoc
  | |- @eq Z _ _ => subst; rewrite ?len_app, ?pck_u32_length, ?pck_u64_length; lia
  | |- @eq bool _ _ => assumption
  | |- _ => lia
  end.

Lemma read_entries_located (files : list inner_file) :
  forallb valid_file files = true ->
  forall content before rest pos strings offset,
    content = before ++ directory offset files ++ rest -> pos = len before ->
    0 <= offset -> offset + len (payload files) < 2 ^ 64 ->
    stored_at content offset files ->
    read_entries content (List.length files) strings pos
    = Ok (strings ++ flat_map inner_records files,
          pos + len (directory offset files)).
Proof.
  induction files as [|f fs IH];
    intros Hvalid content before rest pos strings offset Hc Hp Hlo Hhi Hstored.
  - cbn. now rewrite app_nil_r, Z.add_0_r.
  - cbn [forallb] in Hvalid. apply andb_prop in Hvalid as [Hf Hfs].
    pose proof (valid_file_spec f Hf) as (Hchars & Hlen & Hmd5).
    cbn [stored_at] in Hstored. destruct Hstored as [Hdata Hrest].
    cbn [payload flat_map] in Hhi. rewrite len_app in Hhi. fold (payload fs) in Hhi.
    pose proof (len_nonneg (inner_data f)) as Hd.
    pose proof (len_nonneg (payload fs)) as Hpl.
    pose proof (len_nonneg (padded_path f)) as Hpp.
    cbn [directory] in Hc. unfold entry_bytes in Hc.
    cbn [List.length read_entries]. unfold bind, advance.
    set (tail := directory (offset + len (inner_data f)) fs ++ rest) in *.
    rewrite (read_I_located content before
               (padded_path f ++ u64 offset ++ u64 (len (inner_data f)) ++ inner_md5 f ++ tail)
               (len (padded_path f)) pos)
      by (try (unfold is_u32; lia); archive_side).
    rewrite (read_path_located content (before ++ u32 (len (padded_path f)))
               (u64 offset ++ u64 (len (inner_data f)) ++ inner_md5 f ++ tail) f)
      by archive_side.
    rewrite (read_Q_located content
               ((before ++ u32 (len (padded_path f))) ++ padded_path f)
               (u64 (len (inner_data f)) ++ inner_md5 f ++ tail) offset)
      by archive_side.
    rewrite (read_Q_located content
               (((before ++ u32 (len (padded_path f))) ++ padded_path f) ++ u64 offset)
               (inner_md5 f ++ tail) (len (inner_data f)))
      by archive_side.
    rewrite Hdata.
    rewrite (IH Hfs content
               (((((before ++ u32 (len (padded_path f))) ++ padded_path f) ++ u64 offset)
                 ++ u64 (len (inner_data f))) ++ inner_md5 f)
               rest _ _ (offset + len (inner_data f)))
      by (try assumption; unfold tail in *; try archive_side;
          subst; rewrite ?len_app, ?pck_u32_length, ?pck_u64_length, ?Hmd5; lia).
    cbn [flat_map directory]. unfold inner_records at 2.
    f_equal. f_equal.
    + destruct (endswith_any (inner_path f) text_suffixes);
        [now rewrite <- app_assoc|reflexivity].
    + rewrite len_app, entry_length by assumption. lia.
Qed.

Lemma payload_stored (files : list inner_file) :
  forall before rest, stored_at (before ++ payload files ++ rest) (len before) files.
Proof.
  induction files as [|f fs IH]; intros before rest; [exact I|].
  cbn [stored_at payload flat_map]. fold (payload fs). split.
  - rewrite <- app_assoc. rewrite slice_after by apply len_nonneg.
    now rewrite LayoutFacts.firstn_exact.
  - replace (before ++ (inner_data f ++ payload fs) ++ rest)
      with ((before ++ inner_data f) ++ payload fs ++ rest)
      by (now rewrite <- !app_assoc).
    rewrite <- len_app. apply IH.
Qed.

End ArchiveFacts.

(** X20.  [parse_godot_pck] reads back an archive.  For an archive made of
    the magic [GDPC], four version words, 64 reserved bytes, the number of
    files, one directory entry for each file (the length of its path, the
    path in ASCII padded with NUL bytes, its offset and its size on 8 bytes,
    16 bytes of checksum) and the files one after the other right after the
    directory: the result is, file by file in the order of the directory,
    the records of the [msgid] lines of the files whose path ends with
    [.po], [.csv], [.json] or [.tres], and nothing for the other files.  The
    padding of a path is not part of the key nor of the file name of a
    record, and bytes after the last file are ignored. *)
Theorem parse_godot_pck_reads_archive
    (version major minor patch : Z) (reserved : bytes)
    (files : list PckLayout.inner_file) (trailing : bytes) (filename : str) :
  PckLayout.is_u32 version = true -> PckLayout.is_u32 major = true ->
  PckLayout.is_u32 minor = true -> PckLayout.is_u32 patch = true ->
  len reserved = 64 ->
  forallb PckLayout.valid_file files = true ->
  len files < 2 ^ 32 ->
  len (PckLayout.archive version major minor patch reserved files) < 2 ^ 64 ->
  parse_godot_pck
    (PckLayout.archive version major minor patch reserved files ++ trailing) filename
  = flat_map PckLayout.inner_records files.
Proof.
  intros Hv Hma Hmi Hpa Hres Hvalid Hcount Htotal.
  pose proof (len_nonneg files) as Hfiles.
  unfold PckLayout.archive in *.
  set (head := PckLayout.header version major minor patch reserved (len files)) in *.
  set (offset := len head + len (PckLayout.directory 0 files)) in *.
  assert (Hhead : len head = 88).
  { unfold head, PckLayout.header. rewrite !len_app, !ArchiveFacts.pck_u32_length, Hres.
    reflexivity. }
  assert (Hdir : len (PckLayout.directory offset files) = len (PckLayout.directory 0 files))
    by now apply ArchiveFacts.directory_length.
  remember ((head ++ PckLayout.directory offset files ++ PckLayout.payload files) ++ trailing)
    as content eqn:Hc.
  assert (Hlayout : content =
            lit "GDPC" ++ PckLayout.u32 version ++ PckLayout.u32 major
            ++ PckLayout.u32 minor ++ PckLayout.u32 patch ++ reserved
            ++ PckLayout.u32 (len files)
            ++ PckLayout.directory offset files ++ PckLayout.payload files ++ trailing).
  { subst content. unfold head, PckLayout.header. now rewrite <- !app_assoc. }
  unfold parse_godot_pck.
  assert (Hmagic : slice content 0 4 = Pck.GDPC).
  { rewrite Hlayout. rewrite (PckFacts.slice_in_prefix (lit "GDPC")); [reflexivity|lia|].
    change (len (lit "GDPC")) with 4. lia. }
  rewrite Hmagic. change (negb (Pck.bytes_eqb Pck.GDPC Pck.GDPC)) with false. cbv iota.
  assert (Hwalk : Pck.walk content = Ok (flat_map PckLayout.inner_records files));
    [|now rewrite Hwalk].
  unfold Pck.walk, Cursor.bind, Cursor.advance.
  rewrite (ArchiveFacts.read_I_located content (lit "GDPC")
             (PckLayout.u32 major ++ PckLayout.u32 minor ++ PckLayout.u32 patch ++ reserved
              ++ PckLayout.u32 (len files) ++ PckLayout.directory offset files
              ++ PckLayout.payload files ++ trailing) version 4)
    by (auto; reflexivity).
  rewrite (ArchiveFacts.read_I_located content (lit "GDPC" ++ PckLayout.u32 version)
             (PckLayout.u32 minor ++ PckLayout.u32 patch ++ reserved
              ++ PckLayout.u32 (len files) ++ PckLayout.directory offset files
              ++ PckLayout.payload files ++ trailing) major)
    by (auto; rewrite Hlayout; rewrite <- ?app_assoc; reflexivity).
  rewrite (ArchiveFacts.read_I_located content
             ((lit "GDPC" ++ PckLayout.u32 version) ++ PckLayout.u32 major)
             (PckLayout.u32 patch ++ reserved
              ++ PckLayout.u32 (len files) ++ PckLayout.directory offset files
              ++ PckLayout.payload files ++ trailing) minor)
    by (auto; rewrite Hlayout; rewrite <- ?app_assoc; reflexivity).
  rewrite (ArchiveFacts.read_I_located content
             (((lit "GDPC" ++ PckLayout.u32 version) ++ PckLayout.u32 major)
              ++ PckLayout.u32 minor)
             (reserved
              ++ PckLayout.u32 (len files) ++ PckLayout.directory offset files
              ++ PckLayout.payload files ++ trailing) patch)
    by (auto; rewrite Hlayout; rewrite <- ?app_assoc; reflexivity).
  rewrite (ArchiveFacts.read_I_located content
             (((((lit "GDPC" ++ PckLayout.u32 version) ++ PckLayout.u32 major)
                ++ PckLayout.u32 minor) ++ PckLayout.u32 patch) ++ reserved)
             (PckLayout.directory offset files ++ PckLayout.payload files ++ trailing)
             (len files)).
  2:{ rewrite Hlayout. now rewrite <- ?app_assoc. }
  2:{ rewrite !len_app, !ArchiveFacts.pck_u32_length, Hres. reflexivity. }
  2:{ unfold PckLayout.is_u32. lia. }
  unfold len at 1. rewrite Nat2Z.id.
  rewrite (ArchiveFacts.read_entries_located files Hvalid content head
             (PckLayout.payload files ++ trailing) _ [] offset).
  - reflexivity.
  - rewrite Hc. now rewrite <- !app_assoc.
  - rewrite Hhead. reflexivity.
  - unfold offset. pose proof (len_nonneg (PckLayout.directory 0 files)). lia.
  - rewrite !len_app, Hdir in Htotal. unfold offset. lia.
  - rewrite Hc.
    replace ((head ++ PckLayout.directory offset files ++ PckLayout.payload files) ++ trailing)
      with ((head ++ PckLayout.directory offset files) ++ PckLayout.payload files ++ trailing)
      by (now rewrite <- !app_assoc).
    replace offset with (len (head ++ PckLayout.directory offset files))
      at 2 by (rewrite len_app, Hdir; reflexivity).
    apply ArchiveFacts.payload_stored.
Qed.

Lemma parse_godot_pck_reads_archive_witness :
  parse_godot_pck
    (PckLayout.archive 1 3 5 0 (repeat 0 64) PckLayout.sample_files ++ lit "end")
    (lit "game.pck")
  = [mkStringRecord (lit "pck_res://it.po_0") (lit "Start") (lit "res://it.po");
     mkStringRecord (lit "pck_res://it.po_2") (lit "Quit") (lit "res://it.po")].
Proof.
  apply (parse_godot_pck_reads_archive 1 3 5 0 (repeat 0 64) PckLayout.sample_files
           (lit "end") (lit "game.pck")); reflexivity.
Defined.

(** ** Strings that the heuristic scanner reads back *)

Module CStringFacts.
Import Scanner CStrings.

Lemma valid_string_spec (t : str) :
  valid_string t = true ->
  text_run t /\ 8 <= len t
  /\ isspace (hd 32 t) = false /\ isspace (last t 32) = false
  /\ startswith t (lit "//") = false /\ startswith t (lit "#!") = false.
Proof.
  unfold valid_string. intros H.
  apply andb_prop in H as [H Hbang]. apply andb_prop in H as [H Hslash].
  apply andb_prop in H as [H Hlast]. apply andb_prop in H as [H Hhd].
  apply andb_prop in H as [Hc Hlen].
  apply negb_true_iff in Hbang, Hslash, Hlast, Hhd.
  repeat split; auto; try lia.
  apply Forall_forall. intros c Hin. rewrite forallb_forall in Hc. now apply Hc.
Qed.

Lemma run_records_valid (filename : str) (n : nat) (t : str) :
  valid_string t = true ->
  run_records filename n t = [mkStringRecord (lit "bin_" ++ str_of_nat n) t filename].
Proof.
  intros H. apply valid_string_spec in H as (_ & Hlen & Hhd & Hlast & Hslash & Hbang).
  assert (Hne : t <> []) by (intros ->; cbn in Hlen; lia).
  unfold run_records, keeps.
  rewrite (YamlFields.strip_fixed t 32) by assumption.
  rewrite Hslash, Hbang.
  destruct (Z.leb_spec 8 (len t)); [|lia].
  destruct (Z.eqb_spec (len t) 0); [lia|]. reflexivity.
Qed.

Lemma enumerate_from_length {A} (i : nat) (l : list A) :
  List.length (enumerate_from i l) = List.length l.
Proof. revert i; induction l; intros i; cbn; auto. Qed.

Lemma segments_at_boundary (items : list (str * Z)) :
  forallb valid_item items = true -> at_boundary (segments items).
Proof.
  intros Hvalid. destruct items as [|x l] using rev_ind; [now left|].
  right. rewrite forallb_app in Hvalid. apply andb_prop in Hvalid as [_ Hx].
  cbn [forallb] in Hx. rewrite andb_true_r in Hx.
  unfold valid_item in Hx. apply andb_prop in Hx as [_ Hz].
  apply negb_true_iff in Hz.
  exists (segments l ++ fst x), (snd x). split; [|exact Hz].
  unfold segments. rewrite flat_map_app. cbn [flat_map]. rewrite app_nil_r.
  unfold segment. now rewrite app_assoc.
Qed.

Lemma scan_segments (filename : str) (items : list (str * Z)) :
  forallb valid_item items = true ->
  strings (run filename (segments items)) = records filename items.
Proof.
  induction items as [|x l IH] using rev_ind; intros Hvalid; [reflexivity|].
  rewrite forallb_app in Hvalid. apply andb_prop in Hvalid as [Hl Hx].
  cbn [forallb] in Hx. rewrite andb_true_r in Hx.
  unfold valid_item in Hx. apply andb_prop in Hx as [Ht Hz].
  apply negb_true_iff in Hz.
  unfold segments. rewrite flat_map_app. cbn [flat_map]. rewrite app_nil_r.
  fold (segments l). unfold segment.
  rewrite ScannerFacts.run_closed_run;
    [|now apply segments_at_boundary|now apply valid_string_spec in Ht|exact Hz].
  rewrite (IH Hl), run_records_valid by assumption.
  unfold records, enumerate. rewrite PckFacts.enumerate_from_app, map_app.
  cbn [enumerate_from map fst snd]. now rewrite length_map, enumerate_from_length.
Qed.

End CStringFacts.

(** X21.  The heuristic scanner reads back the strings of a binary.  For
    strings laid one after the other, each made of 8 text bytes at least,
    with no white space at its ends and no [//] or [#!] at its start, and
    each followed by one byte that is not a text byte: the result is the
    first 500 of these strings, in order, under the keys [bin_0], [bin_1],
    ... *)
Theorem scanner_reads_strings (items : list (str * Z)) (filename : str) :
  forallb CStrings.valid_item items = true ->
  extract_strings_from_binary (CStrings.segments items) filename
  = firstn 500 (CStrings.records filename items).
Proof.
  intros Hvalid. unfold extract_strings_from_binary.
  now rewrite CStringFacts.scan_segments.
Qed.

Lemma scanner_reads_strings_witness :
  extract_strings_from_binary (CStrings.segments CStrings.sample_items) (lit "game.bin")
  = [mkStringRecord (lit "bin_0") (lit "Hello, world") (lit "game.bin");
     mkStringRecord (lit "bin_1") (lit "Press START to play") (lit "game.bin");
     mkStringRecord (lit "bin_2") (lit "GAME OVER") (lit "game.bin")].
Proof.
  apply (scanner_reads_strings CStrings.sample_items (lit "game.bin")). reflexivity.
Defined.

(** X22.  No parser returns a record with an empty text: every record of
    [parse_locres], of [parse_godot_pck], of the textual fallback for Unity
    and of the heuristic scanner, for any buffer, has a text of one
    character at least. *)
Theorem no_parser_returns_empty_text (content : bytes) (filename : str) :
  Forall (fun r => 0 < len (original r)) (parse_locres content filename)
  /\ Forall (fun r => 0 < len (original r)) (parse_godot_pck content filename)
  /\ Forall (fun r => 0 < len (original r)) (parse_unity_yaml_fallback content filename)
  /\ Forall (fun r => 0 < len (original r)) (extract_strings_from_binary content filename).
Proof.
  assert (Hscan : Forall (fun r => 0 < len (original r))
                    (extract_strings_from_binary content filename)).
  { unfold extract_strings_from_binary. apply Forall_firstn.
    pose proof (ScannerMore.run_sound filename content) as (_ & Hrec & _).
    revert Hrec. apply Forall_impl. intros r Hr. exact (proj1 (proj2 Hr)). }
  repeat split.
  - unfold parse_locres. destruct (Locres.walk content filename) as [strings|e] eqn:E;
      [|exact Hscan].
    apply WalkRecords.walk_records in E. revert E. apply Forall_impl.
    intros r Hr. exact (proj1 (proj2 Hr)).
  - unfold parse_godot_pck. destruct (negb _); [exact Hscan|].
    destruct (Pck.walk content) as [strings|e] eqn:E; [|exact Hscan].
    apply PckRecords.pck_walk_records in E. revert E. apply Forall_impl.
    intros r (_ & Hr & _). lia.
  - assert (H := YamlFacts.yaml_line_records_ok filename).
    unfold parse_unity_yaml_fallback.
    induction (enumerate (split 10 (decode_utf8_replace content))) as [|x l IH];
      cbn [flat_map]; [constructor|].
    apply Forall_app. split; [|exact IH].
    specialize (H x). revert H. apply Forall_impl. intros r (_ & _ & Hr & _). lia.
  - exact Hscan.
Qed.
